(** * A shallow embedding of [src/src/data_processor.py] (class [DataProcessor]).

    A pandas DataFrame is modelled as its list of column names together with
    its rows, in order.  Every row carries its pandas index label [idx], which
    the stages keep, and one optional field per known column; [None] is a
    missing value (NaN).  A field of a column that is absent from [columns]
    is [None].  Numbers are rationals ([Q]): a float64 value is the rational
    it denotes, and the float64 division and rounding of
    [calculate_derived_metrics] are modelled bit-exactly; text is a Python [str],
    i.e. a list of Unicode code points.  Raised exceptions become [Err]. *)

From Stdlib Require Import List String ZArith QArith Qround Qabs Bool Lia Lqa Sorted.
Import ListNotations.

Open Scope Z_scope.

(** ** Values, rows and frames *)

(** A Python [str]: its code points. *)
Definition text := list Z.

(** A float64 value that is not NaN (NaN is the missing value [None]). *)
Inductive fnum : Type :=
| Fin (q : Q)
| PInf
| NInf.

Record row : Type := mkRow {
  idx : nat;
  title : option text;
  location : option text;
  price : option Q;
  bhk : option Z;
  area_sqft : option Q;
  furnishing : option string;
  price_per_sqft : option fnum
}.

Record frame : Type := mkFrame {
  columns : list string;
  rows : list row
}.

(** Python exceptions that the stages can raise. *)
Inductive py_exc : Type :=
| KeyError
| ValueError
| ReadError.

Inductive res (A : Type) : Type :=
| Ok (a : A)
| Err (e : py_exc).
Arguments Ok {A} a.
Arguments Err {A} e.

Definition bind {A B} (m : res A) (k : A -> res B) : res B :=
  match m with
  | Ok a => k a
  | Err e => Err e
  end.

Notation "x <- m ;; k" := (bind m (fun x => k))
  (at level 61, m at next level, right associativity).

(** [c in df.columns] *)
Definition has_col (c : string) (df : frame) : bool :=
  existsb (String.eqb c) (columns df).

(** Assigning [df[c] = ...]: a new column goes to the end, an existing one
    keeps its place. *)
Definition add_col (c : string) (cols : list string) : list string :=
  if existsb (String.eqb c) cols then cols else cols ++ [c].

Definition set_title (v : option text) (r : row) : row :=
  mkRow (idx r) v (location r) (price r) (bhk r) (area_sqft r)
        (furnishing r) (price_per_sqft r).
Definition set_location (v : option text) (r : row) : row :=
  mkRow (idx r) (title r) v (price r) (bhk r) (area_sqft r)
        (furnishing r) (price_per_sqft r).
Definition set_bhk (v : option Z) (r : row) : row :=
  mkRow (idx r) (title r) (location r) (price r) v (area_sqft r)
        (furnishing r) (price_per_sqft r).
Definition set_area_sqft (v : option Q) (r : row) : row :=
  mkRow (idx r) (title r) (location r) (price r) (bhk r) v
        (furnishing r) (price_per_sqft r).
Definition set_furnishing (v : option string) (r : row) : row :=
  mkRow (idx r) (title r) (location r) (price r) (bhk r) (area_sqft r)
        v (price_per_sqft r).
Definition set_price_per_sqft (v : option fnum) (r : row) : row :=
  mkRow (idx r) (title r) (location r) (price r) (bhk r) (area_sqft r)
        (furnishing r) v.

(** The non-missing values of a Series ([skipna]). *)
Fixpoint somes {A} (l : list (option A)) : list A :=
  match l with
  | [] => []
  | Some a :: l' => a :: somes l'
  | None :: l' => somes l'
  end.

Definition fillna {A} (v : A) (o : option A) : option A :=
  match o with
  | Some a => Some a
  | None => Some v
  end.

(** ** [load_data] *)

(** The file system as [pd.read_csv] sees it: a readable path yields its
    frame (header row = [columns]), an unreadable one makes [read_csv]
    raise. *)
Definition filesystem := string -> option frame.

Definition read_csv (fs : filesystem) (p : string) : res frame :=
  match fs p with
  | Some df => Ok df
  | None => Err ReadError
  end.

(** Python truthiness of an optional path: [None] and the empty string are
    false. *)
Definition truthy (o : option string) : bool :=
  match o with
  | None => false
  | Some EmptyString => false
  | Some _ => true
  end.

Definition load_data (fs : filesystem) (input_file filepath : option string)
  : res frame :=
  if truthy filepath then
    match filepath with Some p => read_csv fs p | None => Err ValueError end
  else if truthy input_file then
    match input_file with Some p => read_csv fs p | None => Err ValueError end
  else Err ValueError.

(** ** [remove_duplicates]: [drop_duplicates(subset=['title','location'],
    keep='first')]; pandas compares NaN equal to NaN here. *)

Definition key (r : row) : option text * option text := (title r, location r).

Definition key_eq_dec (k1 k2 : option text * option text) : {k1 = k2} + {k1 <> k2}.
Proof. repeat decide equality. Defined.

Definition key_eqb (k1 k2 : option text * option text) : bool :=
  if key_eq_dec k1 k2 then true else false.

Fixpoint keep_first (seen : list (option text * option text)) (rs : list row)
  : list row :=
  match rs with
  | [] => []
  | r :: rs' =>
      if existsb (key_eqb (key r)) seen then keep_first seen rs'
      else r :: keep_first (key r :: seen) rs'
  end.

Definition remove_duplicates (df : frame) : res frame :=
  if has_col "title" df && has_col "location" df then
    Ok (mkFrame (columns df) (keep_first [] (rows df)))
  else Err KeyError.

(** ** Order statistics used by pandas *)

(** Strict comparison of numbers. *)
Definition Qlt_bool (x y : Q) : bool := negb (Qle_bool y x).

Fixpoint insert_q (x : Q) (l : list Q) : list Q :=
  match l with
  | [] => [x]
  | y :: l' => if Qle_bool x y then x :: y :: l' else y :: insert_q x l'
  end.

Fixpoint sort_q (l : list Q) : list Q :=
  match l with
  | [] => []
  | x :: l' => insert_q x (sort_q l')
  end.

(** [Series.quantile(num/den)] with the default [interpolation='linear']
    (numpy's [method='linear']): virtual index [num/den * (n-1)] into the
    sorted non-missing values; [None] (NaN) when there are none. *)
Definition quantile (num den : nat) (xs : list Q) : option Q :=
  let s := sort_q xs in
  match s with
  | [] => None
  | _ =>
      let n := List.length s in
      let v := (num * (n - 1))%nat in
      let prev := (v / den)%nat in
      let next := Nat.min (S prev) (n - 1) in
      let g := Qmake (Z.of_nat (v mod den)) (Pos.of_nat den) in
      let a := nth prev s 0%Q in
      let b := nth next s 0%Q in
      Some (a + g * (b - a))%Q
  end.

(** [Series.median()]: middle value, or mean of the two middle values. *)
Definition median (xs : list Q) : option Q :=
  let s := sort_q xs in
  let n := List.length s in
  match n with
  | O => None
  | _ =>
      if Nat.odd n then Some (nth (n / 2) s 0%Q)
      else Some ((nth (n / 2 - 1) s 0%Q + nth (n / 2) s 0%Q) / 2)%Q
  end.

(** [Series.mode()[0]]: [mode()] returns the most frequent non-missing
    values sorted ascending, so [[0]] is the least of them; on an empty
    result the lookup of label [0] raises [KeyError]. *)
Definition count_z (v : Z) (l : list Z) : nat := List.length (filter (Z.eqb v) l).

Definition mode_first (l : list Z) : res Z :=
  let m := fold_right (fun v acc => Nat.max (count_z v l) acc) O l in
  match filter (fun v => Nat.eqb (count_z v l) m) l with
  | [] => Err KeyError
  | v :: vs => Ok (fold_left Z.min vs v)
  end.

(** ** [handle_missing_values] *)

Definition is_some {A} (o : option A) : bool :=
  match o with Some _ => true | None => false end.

Definition critical_present (r : row) : bool :=
  is_some (title r) && is_some (price r) && is_some (location r).

Definition fill_bhk (df : frame) : res frame :=
  if has_col "bhk" df then
    m <- mode_first (somes (map bhk (rows df))) ;;
    Ok (mkFrame (columns df) (map (fun r => set_bhk (fillna m (bhk r)) r) (rows df)))
  else Ok df.

(** [fillna(median)]: a NaN median (no observed value) fills nothing. *)
Definition fill_area (df : frame) : res frame :=
  if has_col "area_sqft" df then
    match median (somes (map area_sqft (rows df))) with
    | Some m =>
        Ok (mkFrame (columns df)
              (map (fun r => set_area_sqft (fillna m (area_sqft r)) r) (rows df)))
    | None => Ok df
    end
  else Ok df.

Definition handle_missing_values (df : frame) : res frame :=
  if has_col "title" df && has_col "price" df && has_col "location" df then
    let dropped := mkFrame (columns df) (filter critical_present (rows df)) in
    df1 <- fill_bhk dropped ;;
    fill_area df1
  else Err KeyError.

(** ** [clean_price]: the IQR outlier filter.  With NaN quartiles (no
    observed price) both comparisons are False on every row. *)

Definition in_bounds (lo hi : Q) (r : row) : bool :=
  match price r with
  | Some p => Qle_bool lo p && Qle_bool p hi
  | None => false
  end.

Definition price_bounds (rs : list row) : option (Q * Q) :=
  let ps := somes (map price rs) in
  match quantile 1 4 ps, quantile 3 4 ps with
  | Some q1, Some q3 =>
      let iqr := (q3 - q1)%Q in
      Some ((q1 - 3 * iqr)%Q, (q3 + 3 * iqr)%Q)
  | _, _ => None
  end.

Definition clean_price (df : frame) : res frame :=
  if negb (has_col "price" df) then Ok df
  else
    match price_bounds (rows df) with
    | Some (lo, hi) => Ok (mkFrame (columns df) (filter (in_bounds lo hi) (rows df)))
    | None => Ok (mkFrame (columns df) [])
    end.

(** ** [clean_text_fields] *)

(** [str.isspace] / [Py_UNICODE_ISSPACE], which is also what [str.strip()]
    removes and what the regex class [\s] matches in a [str] pattern. *)
Definition py_isspace (c : Z) : bool :=
  ((9 <=? c) && (c <=? 13)) || ((28 <=? c) && (c <=? 32)) || (c =? 133)
  || (c =? 160) || (c =? 5760) || ((8192 <=? c) && (c <=? 8202))
  || (c =? 8232) || (c =? 8233) || (c =? 8239) || (c =? 8287) || (c =? 12288).

Fixpoint drop_ws (s : text) : text :=
  match s with
  | [] => []
  | c :: s' => if py_isspace c then drop_ws s' else s
  end.

(** [str.strip()] *)
Definition py_strip (s : text) : text := rev (drop_ws (rev (drop_ws s))).

(** [re.sub(r'\s+', ' ', s)]; [in_run] is true right after an emitted
    space of the current run. *)
Fixpoint collapse_go (in_run : bool) (s : text) : text :=
  match s with
  | [] => []
  | c :: s' =>
      if py_isspace c then
        if in_run then collapse_go true s' else 32 :: collapse_go true s'
      else c :: collapse_go false s'
  end.

Definition collapse_ws (s : text) : text := collapse_go false s.

(** The case mappings of the Unicode Character Database that [str.title]
    uses, on the code points this development evaluates: ASCII, LATIN
    CAPITAL LETTER I WITH DOT ABOVE (U+0130, full lowercase U+0069 U+0307)
    and COMBINING DOT ABOVE (U+0307, no case mapping, not cased).  Every
    other code point is taken as uncased with identity mappings, so the
    model is [str.title] only on text over these code points: other cased
    letters (such as U+00E9 or U+00DF) are left unchanged here, unlike
    CPython.  Properties of the case mapping are stated for ASCII text. *)
Definition is_ascii_upper (c : Z) : bool := (65 <=? c) && (c <=? 90).
Definition is_ascii_lower (c : Z) : bool := (97 <=? c) && (c <=? 122).

Definition lower_full (c : Z) : text :=
  if is_ascii_upper c then [c + 32]
  else if c =? 304 then [105; 775]
  else [c].

Definition title_full (c : Z) : text :=
  if is_ascii_lower c then [c - 32] else [c].

Definition is_cased (c : Z) : bool :=
  is_ascii_upper c || is_ascii_lower c || (c =? 304).

(** CPython's [do_title]: lowercase after a cased character, titlecase
    otherwise; the flag follows the ORIGINAL character. *)
Fixpoint title_go (previous_is_cased : bool) (s : text) : text :=
  match s with
  | [] => []
  | c :: s' =>
      (if previous_is_cased then lower_full c else title_full c)
        ++ title_go (is_cased c) s'
  end.

Definition py_title (s : text) : text := title_go false s.

(** [.str] methods propagate NaN. *)
Definition clean_title_value (s : text) : text := collapse_ws (py_strip s).
Definition clean_location_value (s : text) : text :=
  py_title (collapse_ws (py_strip s)).

Definition clean_text_fields (df : frame) : frame :=
  let rs1 :=
    if has_col "title" df then
      map (fun r => set_title (option_map clean_title_value (title r)) r) (rows df)
    else rows df in
  let rs2 :=
    if has_col "location" df then
      map (fun r => set_location (option_map clean_location_value (location r)) r) rs1
    else rs1 in
  mkFrame (columns df) rs2.

(** ** [calculate_derived_metrics] *)

(** *** float64 arithmetic

    A finite float64 is the rational it denotes.  [b64_round x] is IEEE 754
    binary64 rounding of the exact value [x] to nearest, ties to even (53-bit
    significand, subnormals down to [2^-1074], overflow to [inf]); every
    float64 operation below is the exact result passed through it. *)
Definition pow2 (k : Z) : Q :=
  if 0 <=? k then inject_Z (2 ^ k) else (1 # Z.to_pos (2 ^ (- k)))%Q.

(** [floor (log2 x)] for [x > 0]. *)
Definition floor_log2 (x : Q) : Z :=
  let k := Z.log2 (Qnum x) - Z.log2 (Zpos (Qden x)) in
  if Qlt_bool x (pow2 k) then k - 1 else k.

(** numpy's [rint]: round half to even. *)
Definition round_half_even (q : Q) : Z :=
  let f := Qfloor q in
  let r := (q - inject_Z f)%Q in
  if Qlt_bool r (1 # 2) then f
  else if Qlt_bool (1 # 2) r then f + 1
  else if Z.even f then f else f + 1.

Definition b64_round (x : Q) : fnum :=
  if Qeq_bool x 0 then Fin 0 else
  let ax := Qabs x in
  let e := Z.max (floor_log2 ax - 52) (-1074) in
  let v := (inject_Z (round_half_even (ax / pow2 e)) * pow2 e)%Q in
  if Qle_bool (pow2 1024) v then (if Qlt_bool x 0 then NInf else PInf)
  else Fin (if Qlt_bool x 0 then (- v)%Q else v).

(** float64 division [p / a] on non-NaN operands: division by zero gives
    [inf], [-inf], or NaN for [0/0]. *)
Definition f_div (p a : Q) : option fnum :=
  if Qeq_bool a 0 then
    if Qlt_bool 0 p then Some PInf
    else if Qlt_bool p 0 then Some NInf
    else None
  else Some (b64_round (p / a)).

(** [Series.round(2)] is numpy's [round(x, 2)]: [y = x * 100.0],
    [rint(y)], then [/ 100.0], each a float64 operation. *)
Definition f_mul100 (x : fnum) : fnum :=
  match x with
  | Fin q => b64_round (q * 100)
  | y => y
  end.

Definition f_rint (x : fnum) : fnum :=
  match x with
  | Fin q => Fin (inject_Z (round_half_even q))
  | y => y
  end.

Definition f_div100 (x : fnum) : fnum :=
  match x with
  | Fin q => b64_round (q / 100)
  | y => y
  end.

Definition round2_f (x : fnum) : fnum := f_div100 (f_rint (f_mul100 x)).

Definition derived_price_per_sqft (r : row) : option fnum :=
  match price r, area_sqft r with
  | Some p, Some a => option_map round2_f (f_div p a)
  | _, _ => None
  end.

Definition calculate_derived_metrics (df : frame) : frame :=
  if has_col "price" df && has_col "area_sqft" df then
    mkFrame (add_col "price_per_sqft" (columns df))
      (map (fun r => set_price_per_sqft (derived_price_per_sqft r) r) (rows df))
  else df.

(** ** [add_furnishing_status] *)

Definition furnishing_options : list string :=
  ["Unfurnished"; "Semi-Furnished"; "Fully Furnished"]%string.

(** [np.random.choice(options, size=len(df))]: the [i]-th row gets
    [options[draw i]], where [draw i] is the [i]-th index drawn by the
    global generator from [range(3)]. *)
Fixpoint assign_furnishing (draw : nat -> nat) (i : nat) (rs : list row)
  : list row :=
  match rs with
  | [] => []
  | r :: rs' =>
      set_furnishing (nth_error furnishing_options (draw i)) r
        :: assign_furnishing draw (S i) rs'
  end.

Definition add_furnishing_status (draw : nat -> nat) (df : frame) : frame :=
  if has_col "furnishing" df then df
  else mkFrame (add_col "furnishing" (columns df)) (assign_furnishing draw O (rows df)).

(** ** [validate_data]: returns the frame and the warnings it prints. *)

Definition any_value {A} (f : A -> bool) (l : list (option A)) : bool :=
  existsb (fun o => match o with Some a => f a | None => false end) l.

Definition validate_data (df : frame) : res (frame * list string) :=
  if negb (has_col "price" df) then Err KeyError
  else
    let ps := map price (rows df) in
    let i1 := if any_value (fun p => Qlt_bool p 0) ps
              then ["Negative prices found"%string] else [] in
    let i2 := if has_col "area_sqft" df
                 && any_value (fun a => Qlt_bool a 0) (map area_sqft (rows df))
              then ["Negative area values found"%string] else [] in
    let i3 := if any_value (fun p => Qlt_bool p 1000) ps
              then ["Suspiciously low prices found"%string] else [] in
    let i4 := if any_value (fun p => Qlt_bool 10000000 p) ps
              then ["Suspiciously high prices found"%string] else [] in
    Ok (df, i1 ++ i2 ++ i3 ++ i4).

(** ** [process_all] *)

Definition process_all (draw : nat -> nat) (df : frame) : res (frame * list string) :=
  df1 <- remove_duplicates df ;;
  df2 <- handle_missing_values df1 ;;
  df3 <- clean_price df2 ;;
  let df4 := clean_text_fields df3 in
  let df5 := calculate_derived_metrics df4 in
  let df6 := add_furnishing_status draw df5 in
  validate_data df6.

(** ** Concrete inputs *)

Definition cols_req : list string := ["title"; "price"; "location"]%string.

Definition listing (i : nat) (t l : text) (p : Q) : row :=
  mkRow i (Some t) (Some l) (Some p) None None None None.

(** Two listings "A" at "X" and "A" at "x". *)
Definition ex_case_dup : frame :=
  mkFrame cols_req [listing 0 [65] [88] 35000; listing 1 [65] [120] 35000].

(** An empty CSV with all schema columns. *)
Definition ex_empty : frame :=
  mkFrame ["title"; "price"; "location"; "bhk"; "area_sqft"]%string [].

(** One listing with [area_sqft = 0]. *)
Definition ex_zero_area : frame :=
  mkFrame ["title"; "price"; "location"; "area_sqft"]%string
    [mkRow 0 (Some [65]) (Some [88]) (Some 35000%Q) None (Some 0%Q) None None].



(** A readable [raw.csv] whose header lacks [title]. *)
Definition ex_fs_no_title : filesystem :=
  fun p => if String.eqb p "raw.csv" then Some (mkFrame ["price"; "location"]%string [])
           else None.

(** One complete listing whose [bhk] is missing. *)
Definition ex_bhk_missing : frame :=
  mkFrame ["title"; "price"; "location"; "bhk"]%string
    [mkRow 0 (Some [65]) (Some [88]) (Some 35000%Q) None None None None].

(** A listing located in "SİVAS" (S, U+0130, V, A, S). *)
Definition ex_sivas : frame :=
  mkFrame cols_req [listing 0 [65] [83; 304; 86; 65; 83] 35000].

(** A [furnishing] column with one missing value. *)
Definition ex_partial_furnishing : frame :=
  mkFrame ["title"; "price"; "location"; "furnishing"]%string
    [mkRow 0 (Some [65]) (Some [88]) (Some 35000%Q) None None
       (Some "Unfurnished"%string) None;
     mkRow 1 (Some [66]) (Some [88]) (Some 35000%Q) None None None None].


(** ** Deduplication *)

Lemma key_eqb_true (k1 k2 : option text * option text) :
  key_eqb k1 k2 = true <-> k1 = k2.
Proof.
  unfold key_eqb; destruct (key_eq_dec k1 k2); split; congruence.
Qed.

Lemma keep_first_spec (seen : list (option text * option text)) (rs : list row) :
  NoDup (map key (keep_first seen rs))
  /\ (forall r, In r (keep_first seen rs) -> ~ In (key r) seen).
Proof.
  revert seen; induction rs as [|r rs IH]; intros seen; simpl.
  - split; [constructor | tauto].
  - destruct (existsb (key_eqb (key r)) seen) eqn:E.
    + apply IH.
    + destruct (IH (key r :: seen)) as [Hnd Hnot].
      assert (Hr : ~ In (key r) seen).
      { intros Hin. assert (existsb (key_eqb (key r)) seen = true) by
          (apply existsb_exists; exists (key r); split; [exact Hin | apply key_eqb_true; reflexivity]).
        congruence. }
      split.
      * simpl; constructor; [|exact Hnd].
        intros Hin; apply in_map_iff in Hin as [r' [Hk Hin']].
        apply (Hnot r' Hin'); rewrite Hk; left; reflexivity.
      * intros r' [<- | Hin'] Hs; [exact (Hr Hs)|].
        apply (Hnot r' Hin'); right; exact Hs.
Qed.

(** ** Order-preserving stages

    [embed R l l'] : the rows of [l'] are, in order, images under [R] of a
    subsequence of the rows of [l] (rows are only deleted or rewritten). *)

Inductive embed (R : row -> row -> Prop) : list row -> list row -> Prop :=
| embed_nil : embed R [] []
| embed_keep r r' l l' : R r r' -> embed R l l' -> embed R (r :: l) (r' :: l')
| embed_skip r l l' : embed R l l' -> embed R (r :: l) l'.

Create HintDb embed_db.
#[local] Hint Constructors embed : embed_db.

(** Same pandas index label. *)
Definition same_idx (r r' : row) : Prop := idx r' = idx r.

(** Same index label and same [furnishing] value. *)
Definition same_kept (r r' : row) : Prop :=
  idx r' = idx r /\ furnishing r' = furnishing r.

Section Embed.
Variable R : row -> row -> Prop.
Hypothesis R_refl : forall r, R r r.
Hypothesis R_trans : forall r1 r2 r3, R r1 r2 -> R r2 r3 -> R r1 r3.

Lemma embed_refl (l : list row) : embed R l l.
Proof. induction l; auto with embed_db. Qed.

Lemma embed_to_nil (l : list row) : embed R l [].
Proof. induction l; auto with embed_db. Qed.

Lemma embed_filter (f : row -> bool) (l : list row) : embed R l (filter f l).
Proof. induction l as [|r l IH]; simpl; [|destruct (f r)]; auto with embed_db. Qed.

Lemma embed_map (f : row -> row) (l : list row) :
  (forall r, R r (f r)) -> embed R l (map f l).
Proof. intros Hf; induction l; simpl; auto with embed_db. Qed.

Lemma embed_trans (l1 l2 l3 : list row) :
  embed R l1 l2 -> embed R l2 l3 -> embed R l1 l3.
Proof.
  intros H12; revert l3; induction H12 as [|r r' l l' Hr H IH|r l l' H IH];
    intros l3 H23.
  - inversion H23; constructor.
  - inversion H23; subst.
    + apply embed_keep; [eapply R_trans; eauto | apply IH; assumption].
    + apply embed_skip, IH; assumption.
  - apply embed_skip, IH; assumption.
Qed.

Lemma embed_keep_first (seen : list (option text * option text)) (l : list row) :
  embed R l (keep_first seen l).
Proof.
  revert seen; induction l as [|r l IH]; intros seen; simpl; [constructor|].
  destruct (existsb (key_eqb (key r)) seen); auto with embed_db.
Qed.
End Embed.

Lemma embed_mono (R1 R2 : row -> row -> Prop) (l l' : list row) :
  (forall r r', R1 r r' -> R2 r r') -> embed R1 l l' -> embed R2 l l'.
Proof. intros HR H; induction H; auto with embed_db. Qed.

Lemma embed_in (R : row -> row -> Prop) (l l' : list row) :
  embed R l l' -> forall r', In r' l' -> exists r, In r l /\ R r r'.
Proof.
  induction 1 as [|r r' l l' Hr H IH|r l l' H IH]; intros x Hx.
  - destruct Hx.
  - destruct Hx as [<- | Hx]; [exists r; split; [left|]; auto|].
    destruct (IH x Hx) as [y [Hy Ry]]; exists y; split; [right|]; auto.
  - destruct (IH x Hx) as [y [Hy Ry]]; exists y; split; [right|]; auto.
Qed.

Lemma same_kept_refl (r : row) : same_kept r r.
Proof. split; reflexivity. Qed.

Lemma same_kept_trans (r1 r2 r3 : row) :
  same_kept r1 r2 -> same_kept r2 r3 -> same_kept r1 r3.
Proof. unfold same_kept; intros [H1 H2] [H3 H4]; split; congruence. Qed.

Lemma same_kept_idx (r r' : row) : same_kept r r' -> same_idx r r'.
Proof. unfold same_kept, same_idx; tauto. Qed.

#[local] Hint Resolve same_kept_refl same_kept_trans : embed_db.

(** Each stage before the Field Backfiller keeps index labels and the
    [furnishing] field of the rows it keeps, and keeps the set of columns
    apart from [price_per_sqft]. *)

Lemma remove_duplicates_embed (df df' : frame) :
  remove_duplicates df = Ok df' ->
  embed same_kept (rows df) (rows df') /\ columns df' = columns df.
Proof.
  unfold remove_duplicates; destruct (_ && _); intros H; inversion H; subst; simpl.
  split; [apply embed_keep_first; auto with embed_db | reflexivity].
Qed.

Lemma fill_bhk_embed (df df' : frame) :
  fill_bhk df = Ok df' ->
  embed same_kept (rows df) (rows df') /\ columns df' = columns df.
Proof.
  unfold fill_bhk; destruct (has_col "bhk" df).
  - destruct (mode_first _) as [m|e]; simpl; intros H; inversion H; subst; simpl.
    split; [apply embed_map; intros r; split; reflexivity
           | reflexivity].
  - intros H; inversion H; subst; split; [apply embed_refl, same_kept_refl | reflexivity].
Qed.

Lemma fill_area_embed (df df' : frame) :
  fill_area df = Ok df' ->
  embed same_kept (rows df) (rows df') /\ columns df' = columns df.
Proof.
  unfold fill_area; destruct (has_col "area_sqft" df); [destruct (median _)|];
    intros H; inversion H; subst; simpl;
    (split; [|reflexivity]);
    try (apply embed_refl, same_kept_refl).
  apply embed_map; intros r; split; reflexivity.
Qed.

Lemma handle_missing_values_embed (df df' : frame) :
  handle_missing_values df = Ok df' ->
  embed same_kept (rows df) (rows df') /\ columns df' = columns df.
Proof.
  unfold handle_missing_values; destruct (_ && _ && _); [|discriminate].
  simpl; destruct (fill_bhk _) as [df1|e] eqn:E1; simpl; [|discriminate].
  intros H2.
  apply fill_bhk_embed in E1 as [E1 C1]; apply fill_area_embed in H2 as [E2 C2].
  simpl in *; split; [|congruence].
  eapply embed_trans; [exact same_kept_trans| |eapply embed_trans; [exact same_kept_trans|exact E1|exact E2]].
  apply embed_filter, same_kept_refl.
Qed.

Lemma clean_price_embed (df df' : frame) :
  clean_price df = Ok df' ->
  embed same_kept (rows df) (rows df') /\ columns df' = columns df.
Proof.
  unfold clean_price; destruct (negb _).
  - intros H; inversion H; subst; split; [apply embed_refl, same_kept_refl|reflexivity].
  - destruct (price_bounds _) as [[lo hi]|]; intros H; inversion H; subst; simpl;
      (split; [|reflexivity]).
    + apply embed_filter, same_kept_refl.
    + apply embed_to_nil.
Qed.

Lemma clean_text_fields_embed (df : frame) :
  embed same_kept (rows df) (rows (clean_text_fields df))
  /\ columns (clean_text_fields df) = columns df.
Proof.
  destruct df as [cols rs]; unfold clean_text_fields; cbn -[has_col].
  split; [|reflexivity].
  set (rs1 := if has_col "title" _ then _ else rs).
  apply (embed_trans same_kept same_kept_trans _ rs1).
  - unfold rs1; destruct (has_col "title" _);
      [apply embed_map; intros r; split; reflexivity | apply embed_refl, same_kept_refl].
  - destruct (has_col "location" _);
      [apply embed_map; intros r; split; reflexivity | apply embed_refl, same_kept_refl].
Qed.

Lemma calculate_derived_metrics_embed (df : frame) :
  embed same_kept (rows df) (rows (calculate_derived_metrics df))
  /\ columns (calculate_derived_metrics df) = add_col "price_per_sqft" (columns df)
     \/ calculate_derived_metrics df = df.
Proof.
  unfold calculate_derived_metrics; destruct (_ && _).
  - left; simpl; split; [|reflexivity].
    apply embed_map; intros r; split; reflexivity.
  - right; reflexivity.
Qed.

Lemma assign_furnishing_embed (draw : nat -> nat) (i : nat) (l : list row) :
  embed same_idx l (assign_furnishing draw i l).
Proof.
  revert i; induction l as [|r l IH]; intros i; simpl; [constructor|].
  apply embed_keep; [reflexivity | apply IH].
Qed.

Lemma has_col_add_col (c c' : string) (cols : list string) (rs : list row) :
  has_col c (mkFrame (add_col c' cols) rs)
  = has_col c (mkFrame cols rs) || String.eqb c c'.
Proof.
  unfold has_col, add_col; simpl.
  destruct (existsb (String.eqb c') cols) eqn:E.
  - destruct (String.eqb c c') eqn:Ec; [|now rewrite orb_false_r].
    apply String.eqb_eq in Ec; subst; now rewrite E.
  - rewrite existsb_app; simpl; now rewrite orb_false_r.
Qed.

(** The pipeline up to the Field Backfiller. *)
Lemma process_all_until_backfill (draw : nat -> nat) (df df' : frame)
      (iss : list string) :
  process_all draw df = Ok (df', iss) ->
  exists df5,
    embed same_kept (rows df) (rows df5)
    /\ has_col "furnishing" df5 = has_col "furnishing" df
    /\ df' = add_furnishing_status draw df5.
Proof.
  unfold process_all.
  destruct (remove_duplicates df) as [df1|e] eqn:E1; simpl; [|discriminate].
  destruct (handle_missing_values df1) as [df2|e] eqn:E2; simpl; [|discriminate].
  destruct (clean_price df2) as [df3|e] eqn:E3; simpl; [|discriminate].
  apply remove_duplicates_embed in E1 as [M1 C1].
  apply handle_missing_values_embed in E2 as [M2 C2].
  apply clean_price_embed in E3 as [M3 C3].
  destruct (clean_text_fields_embed df3) as [M4 C4].
  set (df4 := clean_text_fields df3) in *.
  set (df6 := add_furnishing_status draw (calculate_derived_metrics df4)).
  unfold validate_data; destruct (negb (has_col "price" df6)); [discriminate|].
  intros H; inversion H; subst.
  exists (calculate_derived_metrics df4).
  assert (Hc : forall rs, has_col "furnishing" (mkFrame (columns df4) rs)
                         = has_col "furnishing" df).
  { intros rs; unfold has_col.
    change (columns (mkFrame (columns df4) rs)) with (columns df4).
    rewrite C4, C3, C2, C1; reflexivity. }
  destruct (calculate_derived_metrics_embed df4) as [[M5 C5] | E5].
  - split; [|split; [|reflexivity]].
    + eapply embed_trans; [exact same_kept_trans|exact M1|].
      eapply embed_trans; [exact same_kept_trans|exact M2|].
      eapply embed_trans; [exact same_kept_trans|exact M3|].
      eapply embed_trans; [exact same_kept_trans|exact M4|exact M5].
    + destruct (calculate_derived_metrics df4) as [cols5 rs5]; simpl in C5; subst cols5.
      rewrite has_col_add_col, orb_false_r; apply Hc.
  - unfold df6; rewrite E5; split; [|split; [|reflexivity]].
    2: { rewrite <- (Hc (rows df4)); destruct df4; reflexivity. }
    eapply embed_trans; [exact same_kept_trans|exact M1|].
    eapply embed_trans; [exact same_kept_trans|exact M2|].
    eapply embed_trans; [exact same_kept_trans|exact M3|exact M4].
Qed.

Section Backfill.
Variable draw : nat -> nat.
Hypothesis draw_range : forall i, (draw i < 3)%nat.

Lemma assign_furnishing_values (i : nat) (l : list row) :
  Forall (fun r => exists f, furnishing r = Some f /\ In f furnishing_options)
    (assign_furnishing draw i l).
Proof.
  revert i; induction l as [|r l IH]; intros i; simpl; constructor; [|apply IH].
  simpl; specialize (draw_range i).
  destruct (draw i) as [|[|[|n]]]; simpl; [eexists; split; [reflexivity|simpl; tauto]..|lia].
Qed.
End Backfill.

(** ** Sorting and the quartile bounds *)








Lemma somes_length_all {A} (l : list (option A)) :
  Forall (fun o => is_some o = true) l -> List.length (somes l) = List.length l.
Proof.
  induction 1 as [|[b|] l Hx H IH]; simpl; [reflexivity | rewrite IH; reflexivity | discriminate].
Qed.




Lemma filter_all_true {A} (f : A -> bool) (l : list A) :
  (forall x, In x l -> f x = true) -> filter f l = l.
Proof.
  induction l as [|x l IH]; simpl; intros H; [reflexivity|].
  rewrite H by (left; reflexivity); f_equal; apply IH; intros y Hy; apply H; right; exact Hy.
Qed.

(** ** Whitespace handling *)

Definition no_lead (s : text) : Prop :=
  match s with
  | [] => True
  | c :: _ => py_isspace c = false
  end.

Definition no_trail (s : text) : Prop := no_lead (rev s).

Lemma drop_ws_suffix (s : text) : exists p, s = p ++ drop_ws s.
Proof.
  induction s as [|c s [p Hp]]; simpl; [exists []; reflexivity|].
  destruct (py_isspace c); [exists (c :: p); simpl; rewrite <- Hp | exists []]; reflexivity.
Qed.

Lemma drop_ws_no_lead (s : text) : no_lead (drop_ws s).
Proof.
  induction s as [|c s IH]; simpl; [exact I|].
  destruct (py_isspace c) eqn:E; [exact IH | exact E].
Qed.

Lemma drop_ws_id (s : text) : no_lead s -> drop_ws s = s.
Proof. destruct s as [|c s]; simpl; [reflexivity|]; intros E; rewrite E; reflexivity. Qed.

Lemma drop_ws_no_trail (y : text) : no_lead (rev y) -> no_lead (rev (drop_ws y)).
Proof.
  destruct (drop_ws_suffix y) as [p Hp]; intros H.
  rewrite Hp, rev_app_distr in H.
  destruct (rev (drop_ws y)); [exact I | exact H].
Qed.

Lemma py_strip_props (s : text) : no_lead (py_strip s) /\ no_trail (py_strip s).
Proof.
  unfold py_strip, no_trail; rewrite rev_involutive; split; [|apply drop_ws_no_lead].
  apply drop_ws_no_trail; rewrite rev_involutive; apply drop_ws_no_lead.
Qed.

Lemma py_strip_id (s : text) : no_lead s -> no_trail s -> py_strip s = s.
Proof.
  unfold py_strip, no_trail; intros H1 H2.
  rewrite (drop_ws_id s H1), (drop_ws_id (rev s) H2); apply rev_involutive.
Qed.

Lemma collapse_no_lead (b : bool) (s : text) : no_lead s -> no_lead (collapse_go b s).
Proof. destruct s as [|c s]; simpl; [trivial|]; intros E; rewrite E; exact E. Qed.

Lemma collapse_app_last (b : bool) (s : text) (c : Z) :
  py_isspace c = false -> collapse_go b (s ++ [c]) = collapse_go b s ++ [c].
Proof.
  intros Hc; revert b; induction s as [|d s IH]; intros b; simpl.
  - rewrite Hc; reflexivity.
  - destruct (py_isspace d), b; simpl; rewrite ?IH; reflexivity.
Qed.

Lemma collapse_no_trail (b : bool) (s : text) : no_trail s -> no_trail (collapse_go b s).
Proof.
  unfold no_trail; intros H.
  destruct (rev s) as [|c r] eqn:E.
  - apply (f_equal (@rev Z)) in E; rewrite rev_involutive in E; subst; exact I.
  - apply (f_equal (@rev Z)) in E; rewrite rev_involutive in E; subst s; simpl.
    simpl in H; rewrite collapse_app_last by exact H; rewrite rev_app_distr; exact H.
Qed.

Lemma collapse_idem (b : bool) (t : text) : collapse_go b (collapse_go b t) = collapse_go b t.
Proof.
  revert b; induction t as [|c t IH]; intros b; simpl; [reflexivity|].
  destruct (py_isspace c) eqn:E; [destruct b|]; simpl.
  - apply IH.
  - rewrite IH; reflexivity.
  - rewrite E, IH; reflexivity.
Qed.

Lemma collapse_length (b : bool) (t : text) :
  (List.length (collapse_go b t) <= List.length t)%nat.
Proof.
  revert b; induction t as [|c t IH]; intros b; simpl; [lia|].
  pose proof (IH true); pose proof (IH false).
  destruct (py_isspace c); [destruct b|]; simpl; lia.
Qed.

Lemma strip_collapse_strip (s : text) :
  py_strip (collapse_ws (py_strip s)) = collapse_ws (py_strip s).
Proof.
  destruct (py_strip_props s) as [H1 H2].
  apply py_strip_id; [apply collapse_no_lead | apply collapse_no_trail]; assumption.
Qed.

(** ** Title case on ASCII text *)

Definition is_ascii (c : Z) : Prop := 0 <= c < 128.

Definition lower1 (c : Z) : Z := if is_ascii_upper c then c + 32 else c.
Definition upper1 (c : Z) : Z := if is_ascii_lower c then c - 32 else c.
Definition case1 (previous_is_cased : bool) (c : Z) : Z :=
  if previous_is_cased then lower1 c else upper1 c.

Lemma lower_full_ascii (c : Z) : is_ascii c -> lower_full c = [lower1 c].
Proof.
  intros Hc; unfold lower1, lower_full; destruct (is_ascii_upper c); [reflexivity|].
  replace (c =? 304) with false by (symmetry; apply Z.eqb_neq; unfold is_ascii in Hc; lia).
  reflexivity.
Qed.

Lemma title_full_ascii (c : Z) : title_full c = [upper1 c].
Proof. unfold upper1, title_full; destruct (is_ascii_lower c); reflexivity. Qed.

Lemma title_go_cons_ascii (b : bool) (c : Z) (s : text) :
  is_ascii c -> title_go b (c :: s) = case1 b c :: title_go (is_cased c) s.
Proof.
  intros Hc; destruct b; cbn [title_go];
    [rewrite (lower_full_ascii c Hc) | rewrite title_full_ascii]; reflexivity.
Qed.

(** The per-character facts, checked on all 128 ASCII code points. *)
Definition case1_ok (c : Z) : bool :=
  forallb (fun b =>
    Bool.eqb (is_cased (case1 b c)) (is_cased c)
    && (case1 b (case1 b c) =? case1 b c)
    && Bool.eqb (py_isspace (case1 b c)) (py_isspace c)
    && implb (py_isspace c) (case1 b c =? c)
    && (0 <=? case1 b c) && (case1 b c <? 128)) [true; false].

Lemma case1_ok_ascii (c : Z) : is_ascii c -> case1_ok c = true.
Proof.
  intros Hc; unfold is_ascii in Hc.
  assert (Hall : forallb case1_ok (map Z.of_nat (seq 0 128)) = true)
    by (vm_compute; reflexivity).
  rewrite forallb_forall in Hall; apply Hall.
  apply in_map_iff; exists (Z.to_nat c); split; [apply Z2Nat.id; lia|].
  apply in_seq; lia.
Qed.

Lemma case1_facts (b : bool) (c : Z) :
  is_ascii c ->
  is_cased (case1 b c) = is_cased c
  /\ case1 b (case1 b c) = case1 b c
  /\ py_isspace (case1 b c) = py_isspace c
  /\ (py_isspace c = true -> case1 b c = c)
  /\ is_ascii (case1 b c).
Proof.
  intros Hc; pose proof (case1_ok_ascii c Hc) as H.
  unfold case1_ok in H; cbn [forallb] in H; rewrite andb_true_r in H.
  apply andb_true_iff in H as [Ht Hf].
  destruct b; [set (H := Ht) | set (H := Hf)]; clearbody H; clear Ht Hf;
    repeat rewrite andb_true_iff in H;
    destruct H as [[[[[H1 H2] H3] H4] H5] H6];
    apply Bool.eqb_prop in H1, H3; apply Z.eqb_eq in H2;
    apply Z.leb_le in H5; apply Z.ltb_lt in H6;
    (repeat split; [assumption|assumption|assumption| |lia|lia]);
    intros Hs; rewrite Hs in H4; apply Z.eqb_eq; exact H4.
Qed.

Definition ascii_text (s : text) : Prop := Forall is_ascii s.

(** Same length, whitespace at the same places and unchanged there. *)
Definition ws_same (u v : text) : Prop :=
  Forall2 (fun a b => py_isspace b = py_isspace a /\ (py_isspace a = true -> b = a)) u v.

Lemma title_go_ascii (b : bool) (s : text) :
  ascii_text s ->
  ascii_text (title_go b s) /\ ws_same s (title_go b s)
  /\ title_go b (title_go b s) = title_go b s.
Proof.
  unfold ascii_text; revert b; induction s as [|c s IH]; intros b Hs.
  - repeat constructor.
  - inversion Hs as [|? ? Hc Hs']; subst.
    rewrite (title_go_cons_ascii b c s Hc).
    destruct (case1_facts b c Hc) as [F1 [F2 [F3 [F4 F5]]]].
    destruct (IH (is_cased c) Hs') as [A [W I]].
    rewrite (title_go_cons_ascii b (case1 b c) _ F5), F1.
    rewrite F2, I; repeat split; constructor; auto.
Qed.

Lemma ws_same_no_lead (u v : text) : ws_same u v -> no_lead u -> no_lead v.
Proof. destruct 1 as [|a b u v [E _] _]; simpl; [trivial|]; congruence. Qed.

Lemma ws_same_rev (u v : text) : ws_same u v -> ws_same (rev u) (rev v).
Proof.
  induction 1; simpl; [constructor|].
  apply Forall2_app; [assumption | repeat constructor; tauto].
Qed.

Lemma ws_same_no_trail (u v : text) : ws_same u v -> no_trail u -> no_trail v.
Proof. intros H; apply ws_same_no_lead, ws_same_rev, H. Qed.

Lemma ws_same_collapse (b : bool) (u v : text) :
  ws_same u v -> collapse_go b u = u -> collapse_go b v = v.
Proof.
  intros H; revert b; induction H as [|a a' u v [E1 E2] H IH]; intros b Hu;
    simpl in *; [reflexivity|].
  rewrite E1; destruct (py_isspace a) eqn:Ea.
  - rewrite (E2 eq_refl); destruct b.
    + exfalso; pose proof (collapse_length true u) as L.
      apply (f_equal (@List.length Z)) in Hu; simpl in Hu; lia.
    + inversion Hu as [[Ha Hu']]; rewrite (IH true Hu'); subst; reflexivity.
  - inversion Hu as [Hu']; rewrite (IH false Hu'); reflexivity.
Qed.

Lemma drop_ws_ascii (s : text) : ascii_text s -> ascii_text (drop_ws s).
Proof.
  unfold ascii_text; destruct (drop_ws_suffix s) as [p Hp]; intros H.
  rewrite Hp in H; apply Forall_app in H; tauto.
Qed.

Lemma py_strip_ascii (s : text) : ascii_text s -> ascii_text (py_strip s).
Proof.
  intros H; unfold py_strip; apply Forall_rev, drop_ws_ascii, Forall_rev, drop_ws_ascii, H.
Qed.

Lemma collapse_ascii (b : bool) (s : text) : ascii_text s -> ascii_text (collapse_go b s).
Proof.
  unfold ascii_text; revert b; induction s as [|c s IH]; intros b H; simpl; [constructor|].
  inversion H; subst.
  destruct (py_isspace c), b; try apply IH; try (constructor; [|apply IH]); auto;
    unfold is_ascii; lia.
Qed.

Lemma clean_title_value_idem (s : text) :
  clean_title_value (clean_title_value s) = clean_title_value s.
Proof.
  unfold clean_title_value; rewrite strip_collapse_strip; apply collapse_idem.
Qed.

Lemma clean_location_value_idem (s : text) :
  ascii_text s -> clean_location_value (clean_location_value s) = clean_location_value s.
Proof.
  intros Ha; unfold clean_location_value, py_title.
  set (u := collapse_ws (py_strip s)).
  assert (Au : ascii_text u) by apply collapse_ascii, py_strip_ascii, Ha.
  destruct (title_go_ascii false u Au) as [_ [W I]].
  destruct (py_strip_props s) as [L T].
  assert (Lu : no_lead u) by (apply collapse_no_lead, L).
  assert (Tu : no_trail u) by (apply collapse_no_trail, T).
  rewrite (py_strip_id (title_go false u)) by
    (eapply ws_same_no_lead + eapply ws_same_no_trail; eassumption).
  unfold collapse_ws at 1.
  rewrite (ws_same_collapse false u (title_go false u) W) by apply collapse_idem.
  exact I.
Qed.

Lemma fill_bhk_forall (P : row -> Prop) (df df' : frame) :
  (forall r v, P r -> P (set_bhk v r)) ->
  Forall P (rows df) -> fill_bhk df = Ok df' -> Forall P (rows df').
Proof.
  intros HP H; unfold fill_bhk; destruct (has_col "bhk" df).
  - destruct (mode_first _); simpl; intros E; inversion E; subst; simpl.
    apply Forall_map; eapply Forall_impl; [|exact H]; intros r; apply HP.
  - intros E; inversion E; subst; exact H.
Qed.

Lemma fill_area_forall (P : row -> Prop) (df df' : frame) :
  (forall r v, P r -> P (set_area_sqft v r)) ->
  Forall P (rows df) -> fill_area df = Ok df' -> Forall P (rows df').
Proof.
  intros HP H; unfold fill_area; destruct (has_col "area_sqft" df); [destruct (median _)|];
    intros E; inversion E; subst; simpl; try exact H.
  apply Forall_map; eapply Forall_impl; [|exact H]; intros r; apply HP.
Qed.

(** ** Further facts about the stages *)

(** [fillna] only fills: a record keeps its critical fields and every value
    it already had. *)
Definition resolved_from (r r' : row) : Prop :=
  idx r' = idx r /\ title r' = title r /\ location r' = location r
  /\ price r' = price r /\ furnishing r' = furnishing r
  /\ price_per_sqft r' = price_per_sqft r
  /\ (forall b, bhk r = Some b -> bhk r' = Some b)
  /\ (forall a, area_sqft r = Some a -> area_sqft r' = Some a).



Lemma keep_first_id (seen : list (option text * option text)) (l : list row) :
  NoDup (map key l) -> (forall r, In r l -> ~ In (key r) seen) ->
  keep_first seen l = l.
Proof.
  revert seen; induction l as [|r l IH]; intros seen Hnd Hs; simpl; [reflexivity|].
  inversion Hnd as [|? ? Hr Hnd']; subst.
  replace (existsb (key_eqb (key r)) seen) with false.
  - f_equal; apply IH; [exact Hnd'|].
    intros r' Hr' [E|E]; [apply Hr; rewrite E; apply in_map, Hr'|].
    apply (Hs r' (or_intror Hr') E).
  - symmetry; apply not_true_iff_false; intros E.
    apply existsb_exists in E as [k [Hk E]]; apply key_eqb_true in E; subst k.
    apply (Hs r (or_introl eq_refl) Hk).
Qed.

Lemma keep_first_first (seen : list (option text * option text)) (l : list row) (r : row) :
  In r l -> ~ In (key r) seen ->
  exists r', In r' (keep_first seen l) /\ key r' = key r
    /\ exists pre post, l = pre ++ r' :: post /\ forall x, In x pre -> key x <> key r.
Proof.
  revert seen; induction l as [|r0 l IH]; intros seen Hin Hs; [destruct Hin|]; simpl.
  destruct (existsb (key_eqb (key r0)) seen) eqn:E.
  - apply existsb_exists in E as [k [Hk E]]; apply key_eqb_true in E; subst k.
    destruct Hin as [<-|Hin]; [contradiction|].
    destruct (IH seen Hin Hs) as [r' [Hr' [Hk' [pre [post [El Hpre]]]]]].
    exists r'; split; [exact Hr'|split; [exact Hk'|]].
    exists (r0 :: pre), post; split; [rewrite El; reflexivity|].
    intros x [<-|Hx]; [intros Ek; rewrite Ek in Hk; contradiction|apply Hpre, Hx].
  - destruct (key_eq_dec (key r0) (key r)) as [Ek|Ek].
    + exists r0; split; [left; reflexivity|split; [exact Ek|]].
      exists [], l; split; [reflexivity|intros x []].
    + destruct Hin as [<-|Hin]; [congruence|].
      destruct (IH (key r0 :: seen) Hin) as [r' [Hr' [Hk' [pre [post [El Hpre]]]]]].
      { intros [E'|E']; [congruence|contradiction]. }
      exists r'; split; [right; exact Hr'|split; [exact Hk'|]].
      exists (r0 :: pre), post; split; [rewrite El; reflexivity|].
      intros x [<-|Hx]; [exact Ek|apply Hpre, Hx].
Qed.

Lemma fold_left_min_spec (vs : list Z) (v : Z) :
  In (fold_left Z.min vs v) (v :: vs)
  /\ forall w, In w (v :: vs) -> fold_left Z.min vs v <= w.
Proof.
  revert v; induction vs as [|u vs IH]; intros v; simpl.
  - split; [left; reflexivity|intros w [<-|[]]; lia].
  - destruct (IH (Z.min v u)) as [H1 H2]; split.
    + destruct H1 as [E|E]; [|right; right; exact E].
      rewrite <- E; destruct (Z.min_spec v u) as [[_ ->]|[_ ->]]; [left|right; left]; reflexivity.
    + intros w [Ew|[Ew|Hw]]; [subst w|subst w|].
      * specialize (H2 (Z.min v u) (or_introl eq_refl)); lia.
      * specialize (H2 (Z.min v u) (or_introl eq_refl)); lia.
      * apply H2; right; exact Hw.
Qed.

Lemma max_count_spec (L l : list Z) :
  (forall v, In v l -> (count_z v L <= fold_right (fun v acc => Nat.max (count_z v L) acc) O l)%nat)
  /\ (l <> [] -> exists v, In v l
        /\ count_z v L = fold_right (fun v acc => Nat.max (count_z v L) acc) O l).
Proof.
  induction l as [|u l [IH1 IH2]]; simpl; split.
  - intros v [].
  - congruence.
  - intros v [<-|Hv]; [lia|specialize (IH1 v Hv); lia].
  - intros _; destruct l as [|u' l'].
    + exists u; split; [left; reflexivity|simpl; lia].
    + destruct (IH2 ltac:(discriminate)) as [w [Hw Ew]].
      destruct (Nat.max_spec (count_z u L) (fold_right (fun v acc => Nat.max (count_z v L) acc) O (u' :: l')))
        as [[_ E]|[_ E]]; rewrite E.
      * exists w; split; [right; exact Hw|exact Ew].
      * exists u; split; [left; reflexivity|reflexivity].
Qed.

Lemma map_id_ext {A} (f : A -> A) (l : list A) :
  (forall x, In x l -> f x = x) -> map f l = l.
Proof.
  induction l as [|x l IH]; simpl; intros H; [reflexivity|].
  rewrite H by (left; reflexivity); f_equal; apply IH; intros y Hy; apply H; right; exact Hy.
Qed.

Lemma Forall_map_impl {A} (P : A -> Prop) (f : A -> A) (l : list A) :
  (forall x, P x -> P (f x)) -> Forall P l -> Forall P (map f l).
Proof. intros Hf H; apply Forall_map; eapply Forall_impl; [exact Hf|exact H]. Qed.

Lemma any_value_iff {A} (f : A -> bool) (l : list (option A)) :
  any_value f l = true <-> exists a, In (Some a) l /\ f a = true.
Proof.
  unfold any_value; rewrite existsb_exists; split.
  - intros [[a|] [Hin E]]; [exists a; split; assumption|discriminate].
  - intros [a [Hin E]]; exists (Some a); split; assumption.
Qed.

Lemma Forall2_map_self {A} (R : A -> A -> Prop) (f : A -> A) (l : list A) :
  (forall x, In x l -> R x (f x)) -> Forall2 R l (map f l).
Proof.
  induction l as [|x l IH]; simpl; intros H; constructor;
    [apply H; left; reflexivity | apply IH; intros y Hy; apply H; right; exact Hy].
Qed.

Lemma Forall2_compose {A} (R : A -> A -> Prop) (l1 l2 l3 : list A) :
  (forall x y z, R x y -> R y z -> R x z) ->
  Forall2 R l1 l2 -> Forall2 R l2 l3 -> Forall2 R l1 l3.
Proof.
  intros Ht H12; revert l3; induction H12 as [|x y l1 l2 Hxy H IH]; intros l3 H23;
    inversion H23; subst; constructor; eauto.
Qed.

Lemma resolved_from_refl (r : row) : resolved_from r r.
Proof. repeat split; auto. Qed.

Lemma resolved_from_trans (r1 r2 r3 : row) :
  resolved_from r1 r2 -> resolved_from r2 r3 -> resolved_from r1 r3.
Proof.
  unfold resolved_from; intros [A1 [A2 [A3 [A4 [A5 [A6 [A7 A8]]]]]]]
    [B1 [B2 [B3 [B4 [B5 [B6 [B7 B8]]]]]]].
  repeat split; try congruence; auto.
Qed.

Lemma mode_first_nil : mode_first [] = Err KeyError.
Proof. reflexivity. Qed.

Lemma mode_first_ok_nonempty (l : list Z) (m : Z) : mode_first l = Ok m -> l <> [].
Proof. intros H E; subst; discriminate. Qed.

Lemma mode_first_filter_in (l : list Z) :
  l <> [] -> filter (fun v => Nat.eqb (count_z v l)
                      (fold_right (fun v acc => Nat.max (count_z v l) acc) O l)) l <> [].
Proof.
  intros Hne E.
  destruct (proj2 (max_count_spec l l) Hne) as [v [Hv Ev]].
  assert (Hf : In v (filter (fun v => Nat.eqb (count_z v l)
                 (fold_right (fun v acc => Nat.max (count_z v l) acc) O l)) l))
    by (apply filter_In; split; [exact Hv|apply Nat.eqb_eq, Ev]).
  rewrite E in Hf; destruct Hf.
Qed.

Lemma mode_first_nonempty (l : list Z) : l <> [] -> exists m, mode_first l = Ok m.
Proof.
  intros Hne; unfold mode_first.
  destruct (filter _ l) eqn:E; [exfalso; apply (mode_first_filter_in l Hne E)|].
  eexists; reflexivity.
Qed.



Lemma somes_nil {A} (l : list (option A)) : somes l = [] -> forall o, In o l -> o = None.
Proof.
  induction l as [|[a|] l IH]; simpl; [tauto|discriminate|].
  intros H o [<-|Ho]; [reflexivity|apply IH; assumption].
Qed.

Lemma somes_nonempty {A} (l : list (option A)) :
  l <> [] -> Forall (fun o => is_some o = true) l -> somes l <> [].
Proof.
  intros Hne H E; apply (f_equal (@List.length A)) in E.
  rewrite (somes_length_all l H) in E; destruct l; [congruence|discriminate].
Qed.

(** The two ways [fill_bhk] and [fill_area] can return. *)
Lemma fill_bhk_cases (df df1 : frame) :
  fill_bhk df = Ok df1 ->
  (has_col "bhk" df = false /\ df1 = df)
  \/ (has_col "bhk" df = true /\ exists m,
        mode_first (somes (map bhk (rows df))) = Ok m
        /\ df1 = mkFrame (columns df) (map (fun r => set_bhk (fillna m (bhk r)) r) (rows df))).
Proof.
  unfold fill_bhk; destruct (has_col "bhk" df).
  - destruct (mode_first _) as [m|e] eqn:E; simpl; intros H; inversion H; subst.
    right; split; [reflexivity|exists m; split; reflexivity].
  - intros H; inversion H; left; split; reflexivity.
Qed.

Lemma fill_area_cases (df df1 : frame) :
  fill_area df = Ok df1 ->
  (df1 = df /\ (has_col "area_sqft" df = false
               \/ median (somes (map area_sqft (rows df))) = None))
  \/ (has_col "area_sqft" df = true /\ exists a,
        median (somes (map area_sqft (rows df))) = Some a
        /\ df1 = mkFrame (columns df)
                   (map (fun r => set_area_sqft (fillna a (area_sqft r)) r) (rows df))).
Proof.
  unfold fill_area; destruct (has_col "area_sqft" df).
  - destruct (median _) as [a|] eqn:E; intros H; inversion H; subst.
    + right; split; [reflexivity|exists a; split; reflexivity].
    + left; split; [reflexivity|right; reflexivity].
  - intros H; inversion H; left; split; [reflexivity|left; reflexivity].
Qed.

Lemma fill_bhk_resolved (df df1 : frame) :
  fill_bhk df = Ok df1 ->
  columns df1 = columns df /\ Forall2 resolved_from (rows df) (rows df1).
Proof.
  intros H; destruct (fill_bhk_cases df df1 H) as [[_ ->]|[_ [m [_ ->]]]]; simpl;
    (split; [reflexivity|]).
  - induction (rows df); constructor; [apply resolved_from_refl|assumption].
  - apply Forall2_map_self; intros r _; repeat split; simpl; auto.
    intros b E; rewrite E; reflexivity.
Qed.

Lemma fill_area_resolved (df df1 : frame) :
  fill_area df = Ok df1 ->
  columns df1 = columns df /\ Forall2 resolved_from (rows df) (rows df1).
Proof.
  intros H; destruct (fill_area_cases df df1 H) as [[-> _]|[_ [a [_ ->]]]]; simpl;
    (split; [reflexivity|]).
  - induction (rows df); constructor; [apply resolved_from_refl|assumption].
  - apply Forall2_map_self; intros r _; repeat split; simpl; auto.
    intros a' E; rewrite E; reflexivity.
Qed.

Lemma handle_missing_values_resolved (df df' : frame) :
  handle_missing_values df = Ok df' ->
  (has_col "title" df && has_col "price" df && has_col "location" df) = true
  /\ columns df' = columns df
  /\ Forall2 resolved_from (filter critical_present (rows df)) (rows df').
Proof.
  unfold handle_missing_values; destruct (_ && _ && _); [|discriminate].
  destruct (fill_bhk _) as [df1|e] eqn:E1; simpl; [|discriminate]; intros E2.
  apply fill_bhk_resolved in E1 as [C1 R1]; apply fill_area_resolved in E2 as [C2 R2].
  simpl in *; split; [reflexivity|split; [congruence|]].
  eapply Forall2_compose; [exact resolved_from_trans|exact R1|exact R2].
Qed.

Lemma Forall2_resolved_critical (l l' : list row) :
  Forall2 resolved_from (filter critical_present l) l' ->
  Forall (fun r => critical_present r = true) l'.
Proof.
  intros H.
  assert (Hf : Forall (fun r => critical_present r = true) (filter critical_present l))
    by (apply Forall_forall; intros r Hr; apply filter_In in Hr; tauto).
  revert Hf; induction H as [|r r' l1 l2 Hr H IH]; intros Hf; constructor.
  - inversion Hf; subst.
    destruct Hr as [_ [E1 [E2 [E3 _]]]]; unfold critical_present; rewrite E1, E2, E3; assumption.
  - inversion Hf; subst; apply IH; assumption.
Qed.

(** What the output of [handle_missing_values] looks like on its own bhk
    and area columns. *)
Lemma handle_missing_values_output (df df' : frame) :
  handle_missing_values df = Ok df' ->
  (has_col "bhk" df = true ->
     rows df' <> [] /\ Forall (fun r => is_some (bhk r) = true) (rows df'))
  /\ (has_col "area_sqft" df = true ->
     Forall (fun r => is_some (area_sqft r) = true) (rows df')
     \/ median (somes (map area_sqft (rows df'))) = None).
Proof.
  unfold handle_missing_values; destruct (_ && _ && _); [|discriminate].
  set (D := mkFrame (columns df) (filter critical_present (rows df))).
  destruct (fill_bhk D) as [D1|e] eqn:E1; simpl; [|discriminate]; intros E2.
  assert (HD1 : columns D1 = columns D) by (apply (fill_bhk_resolved D D1 E1)).
  split.
  - intros Hb.
    destruct (fill_bhk_cases D D1 E1) as [[Hb' _]|[_ [m [Em ->]]]];
      [change (has_col "bhk" D) with (has_col "bhk" df) in Hb'; congruence|].
    assert (Hne : rows D <> []).
    { intros E; apply (mode_first_ok_nonempty _ m Em); rewrite E; reflexivity. }
    assert (Hall : Forall (fun r => is_some (bhk r) = true)
                     (map (fun r => set_bhk (fillna m (bhk r)) r) (rows D))).
    { apply Forall_map, Forall_forall; intros r _; simpl; destruct (bhk r); reflexivity. }
    destruct (fill_area_cases _ _ E2) as [[-> _]|[_ [a [_ ->]]]]; simpl.
    + split; [intros E; apply Hne; exact (map_eq_nil _ _ E)|exact Hall].
    + split; [intros E; apply Hne; exact (map_eq_nil _ _ (map_eq_nil _ _ E))|].
      apply Forall_map; eapply Forall_impl; [|exact Hall]; intros r H; exact H.
  - intros Ha; destruct (fill_area_cases _ _ E2) as [[-> [Ha'|Hm]]|[_ [a [_ ->]]]].
    + unfold has_col in Ha'; rewrite HD1 in Ha'; change (has_col "area_sqft" df = false) in Ha'.
      congruence.
    + right; exact Hm.
    + left; simpl; apply Forall_map, Forall_forall; intros r _; simpl.
      destruct (area_sqft r); reflexivity.
Qed.

Lemma fill_bhk_fixed (df : frame) :
  (has_col "bhk" df = true ->
     rows df <> [] /\ Forall (fun r => is_some (bhk r) = true) (rows df)) ->
  fill_bhk df = Ok df.
Proof.
  intros H; unfold fill_bhk; destruct (has_col "bhk" df) eqn:Hb; [|reflexivity].
  destruct (H eq_refl) as [Hne Hall].
  destruct (mode_first_nonempty (somes (map bhk (rows df)))) as [m Em].
  { apply somes_nonempty; [destruct (rows df); [congruence|discriminate]|apply Forall_map, Hall]. }
  rewrite Em; simpl; destruct df as [cols rs]; simpl in *; f_equal; f_equal.
  apply map_id_ext; intros r Hr; rewrite Forall_forall in Hall; specialize (Hall r Hr).
  destruct r as [i t l p [b|] a f pp]; [reflexivity|discriminate].
Qed.

Lemma fill_area_fixed (df : frame) :
  (has_col "area_sqft" df = true ->
     Forall (fun r => is_some (area_sqft r) = true) (rows df)
     \/ median (somes (map area_sqft (rows df))) = None) ->
  fill_area df = Ok df.
Proof.
  intros H; unfold fill_area; destruct (has_col "area_sqft" df) eqn:Ha; [|reflexivity].
  destruct (median _) as [m|] eqn:Em; [|reflexivity].
  destruct (H eq_refl) as [Hall|Hn]; [|congruence].
  destruct df as [cols rs]; simpl in *; f_equal; f_equal.
  apply map_id_ext; intros r Hr; rewrite Forall_forall in Hall; specialize (Hall r Hr).
  destruct r as [i t l p b [a|] f pp]; [reflexivity|discriminate].
Qed.

(** ** Whitespace structure of the cleaned text *)




















(** ** Validation and the later stages *)

Lemma Qlt_bool_iff (x y : Q) : Qlt_bool x y = true <-> (x < y)%Q.
Proof.
  unfold Qlt_bool; rewrite negb_true_iff, <- not_true_iff_false, Qle_bool_iff.
  split; [apply Qnot_le_lt|apply Qlt_not_le].
Qed.

Lemma in_if_single {A} (b : bool) (x y : A) :
  In x (if b then [y] else []) <-> b = true /\ x = y.
Proof. destruct b; simpl; split; intuition congruence. Qed.

Lemma Forall_filter_keep {A} (P : A -> Prop) (f : A -> bool) (l : list A) :
  Forall P l -> Forall P (filter f l).
Proof.
  rewrite !Forall_forall; intros H x Hx; apply filter_In in Hx; apply H; tauto.
Qed.

Lemma clean_price_forall (P : row -> Prop) (df df' : frame) :
  clean_price df = Ok df' -> Forall P (rows df) -> Forall P (rows df').
Proof.
  unfold clean_price; destruct (negb _).
  - intros E; inversion E; subst; tauto.
  - destruct (price_bounds _) as [[lo hi]|]; intros E; inversion E; subst; simpl;
      [apply Forall_filter_keep|constructor].
Qed.

Lemma clean_text_fields_critical (df : frame) :
  Forall (fun r => critical_present r = true) (rows df) ->
  Forall (fun r => critical_present r = true) (rows (clean_text_fields df)).
Proof.
  intros H; unfold clean_text_fields; simpl.
  assert (H1 : Forall (fun r => critical_present r = true)
                 (if has_col "title" df then
                    map (fun r => set_title (option_map clean_title_value (title r)) r) (rows df)
                  else rows df)).
  { destruct (has_col "title" df); [|exact H].
    apply Forall_map; eapply Forall_impl; [|exact H]; intros r.
    unfold critical_present; destruct r as [i [t|] l p b a f pp]; simpl; auto. }
  destruct (has_col "location" df); [|exact H1].
  apply Forall_map; eapply Forall_impl; [|exact H1]; intros r.
  unfold critical_present; destruct r as [i t [l|] p b a f pp]; simpl; auto.
Qed.

Lemma calculate_derived_metrics_forall (P : row -> Prop) (df : frame) :
  (forall r v, P r -> P (set_price_per_sqft v r)) ->
  Forall P (rows df) -> Forall P (rows (calculate_derived_metrics df)).
Proof.
  intros HP H; unfold calculate_derived_metrics; destruct (_ && _); [|exact H].
  simpl; apply Forall_map; eapply Forall_impl; [|exact H]; intros r; apply HP.
Qed.

Lemma add_furnishing_status_forall (P : row -> Prop) (draw : nat -> nat) (df : frame) :
  (forall r v, P r -> P (set_furnishing v r)) ->
  Forall P (rows df) -> Forall P (rows (add_furnishing_status draw df)).
Proof.
  intros HP H; unfold add_furnishing_status; destruct (has_col "furnishing" df); [exact H|].
  simpl; generalize O; induction H as [|r l Hr H IH]; intros i; simpl; constructor;
    [apply HP, Hr|apply IH].
Qed.



Lemma has_col_mk (c : string) (df : frame) (rs : list row) :
  has_col c (mkFrame (columns df) rs) = has_col c df.
Proof. reflexivity. Qed.

Lemma has_col_cols (c : string) (a b : frame) :
  columns a = columns b -> has_col c a = has_col c b.
Proof. unfold has_col; intros ->; reflexivity. Qed.

Lemma has_col_calculate_derived_metrics (c : string) (df : frame) :
  has_col c (calculate_derived_metrics df)
  = if has_col "price" df && has_col "area_sqft" df
    then has_col c df || String.eqb c "price_per_sqft" else has_col c df.
Proof.
  unfold calculate_derived_metrics; destruct (_ && _); [|reflexivity].
  destruct df as [cols rs]; rewrite has_col_add_col; reflexivity.
Qed.

Lemma has_col_add_furnishing_status (c : string) (draw : nat -> nat) (df : frame) :
  has_col c (add_furnishing_status draw df) = has_col c df || String.eqb c "furnishing".
Proof.
  unfold add_furnishing_status; destruct (has_col "furnishing" df) eqn:E.
  - destruct (String.eqb c "furnishing") eqn:Ec; [|rewrite orb_false_r; reflexivity].
    apply String.eqb_eq in Ec; subst; rewrite E; reflexivity.
  - destruct df as [cols rs]; rewrite has_col_add_col; reflexivity.
Qed.

Lemma warnings_in (b1 b2 b3 b4 : bool) :
  let iss := (if b1 then ["Negative prices found"%string] else [])
             ++ (if b2 then ["Negative area values found"%string] else [])
             ++ (if b3 then ["Suspiciously low prices found"%string] else [])
             ++ (if b4 then ["Suspiciously high prices found"%string] else []) in
  NoDup iss
  /\ (In "Negative prices found"%string iss <-> b1 = true)
  /\ (In "Negative area values found"%string iss <-> b2 = true)
  /\ (In "Suspiciously low prices found"%string iss <-> b3 = true)
  /\ (In "Suspiciously high prices found"%string iss <-> b4 = true).
Proof.
  destruct b1, b2, b3, b4; simpl;
    (split; [repeat constructor; simpl; intuition discriminate|]);
    repeat split; intuition discriminate.
Qed.


Lemma Forall2_self {A} (R : A -> A -> Prop) (l : list A) :
  (forall x, In x l -> R x x) -> Forall2 R l l.
Proof.
  induction l as [|x l IH]; intros H; constructor;
    [apply H; left; reflexivity|apply IH; intros y Hy; apply H; right; exact Hy].
Qed.

Lemma fill_area_never_fails (df : frame) : exists df1, fill_area df = Ok df1.
Proof.
  unfold fill_area; destruct (has_col "area_sqft" df); [destruct (median _)|];
    eexists; reflexivity.
Qed.

Lemma somes_all_none {A} (l : list (option A)) :
  Forall (fun o => o = None) l -> somes l = [].
Proof. induction 1 as [|o l Ho H IH]; [reflexivity|subst; exact IH]. Qed.






(** * Claims *)

(** C1 (corrected).  After [remove_duplicates] no two records share their
    (title, location) pair; the pipeline as a whole does not keep this,
    see [process_all_case_duplicates]. *)
Theorem remove_duplicates_unique_keys (df df' : frame) :
  remove_duplicates df = Ok df' -> NoDup (map key (rows df')).
Proof.
  unfold remove_duplicates; destruct (_ && _); intros H; inversion H; subst; simpl.
  apply (keep_first_spec [] (rows df)).
Qed.

Lemma remove_duplicates_unique_keys_witness :
  exists df', remove_duplicates ex_case_dup = Ok df' /\ NoDup (map key (rows df')).
Proof.
  eexists; split; [vm_compute; reflexivity|].
  apply (remove_duplicates_unique_keys ex_case_dup); vm_compute; reflexivity.
Defined.

(** C1 counterexample: "A" at "X" and "A" at "x" both survive the
    Deduplicator; the Text Normalizer then title-cases "x" to "X", so the
    final dataset holds the pair ("A", "X") twice. *)
Lemma process_all_case_duplicates :
  exists df' iss, process_all (fun _ => O) ex_case_dup = Ok (df', iss)
                  /\ ~ NoDup (map key (rows df')).
Proof.
  do 2 eexists; split; [vm_compute; reflexivity|].
  simpl; intros H; inversion H as [|k l Hk Hl]; apply Hk; left; reflexivity.
Qed.

(** C2 (code bug).  On an empty dataset having the [bhk] column,
    [handle_missing_values] evaluates [mode()[0]] on an empty Series and
    raises [KeyError], so the pipeline aborts instead of producing an empty
    output. *)
Theorem empty_dataset_raises (draw : nat -> nat) :
  handle_missing_values ex_empty = Err KeyError
  /\ process_all draw ex_empty = Err KeyError.
Proof. split; vm_compute; reflexivity. Qed.

(** The float64 quotient and its rounding, on the values of the review:
    [203 / 200] rounds to the float64 nearest [1.01] (the product
    [1.015 * 100] is [101.49999999999999]); [1 / 8] rounds to the float64
    nearest [0.12]. *)
Lemma round2_f_203_200 :
  exists x, round2_f (b64_round (203 / 200)) = Fin x
    /\ (x == 4548635623644201 # 4503599627370496)%Q.
Proof. eexists; split; [vm_compute; reflexivity|reflexivity]. Qed.

Lemma round2_f_1_8 :
  exists x, round2_f (b64_round (1 / 8)) = Fin x
    /\ (x == 1080863910568919 # 9007199254740992)%Q.
Proof. eexists; split; [vm_compute; reflexivity|reflexivity]. Qed.






(** C5 (corrected).  If the input has no [furnishing] column, every record
    of the final dataset has a furnishing value; if the column exists, each
    final record carries the furnishing value (possibly missing) of the
    input record with the same index label. *)
Theorem process_all_furnishing (draw : nat -> nat) (df df' : frame)
        (iss : list string) :
  (forall i, (draw i < 3)%nat) ->
  process_all draw df = Ok (df', iss) ->
  (has_col "furnishing" df = false ->
     Forall (fun r => furnishing r <> None) (rows df'))
  /\ (has_col "furnishing" df = true ->
     forall r', In r' (rows df') ->
       exists r, In r (rows df) /\ idx r = idx r' /\ furnishing r = furnishing r').
Proof.
  intros Hdraw H.
  destruct (process_all_until_backfill draw df df' iss H) as [df5 [M [Hc E]]].
  subst df'; unfold add_furnishing_status; rewrite Hc; split; intros Hf.
  - rewrite Hf; simpl.
    eapply Forall_impl; [|apply (assign_furnishing_values draw Hdraw)].
    intros r [f [Ef _]]; rewrite Ef; discriminate.
  - rewrite Hf; intros r' Hr'.
    destruct (embed_in _ _ _ M r' Hr') as [r [Hr [E1 E2]]].
    exists r; split; [exact Hr|split; symmetry; assumption].
Qed.

Lemma process_all_furnishing_witness :
  exists df' iss, process_all (fun _ => O) ex_case_dup = Ok (df', iss)
    /\ Forall (fun r => furnishing r <> None) (rows df').
Proof.
  do 2 eexists; split; [vm_compute; reflexivity|].
  apply (proj1 (process_all_furnishing (fun _ => O) ex_case_dup _ _
                  ltac:(intros i; simpl; lia) ltac:(vm_compute; reflexivity))).
  vm_compute; reflexivity.
Defined.

(** C5 counterexample: with a [furnishing] column whose second value is
    missing, the final dataset still has that value missing. *)
Lemma partial_furnishing_stays_missing :
  exists df' iss, process_all (fun _ => O) ex_partial_furnishing = Ok (df', iss)
    /\ map furnishing (rows df') = [Some "Unfurnished"%string; None].
Proof. do 2 eexists; split; vm_compute; reflexivity. Qed.

(** C6 (corrected).  [load_data] reads the given path (or the configured
    input file), propagates the reader's error when it cannot be read and
    raises [ValueError] when no path is given; it checks no columns, so a
    readable source is returned whatever its header. *)
Theorem load_data_spec :
  (forall fs input_file p, p <> EmptyString ->
     load_data fs input_file (Some p) = read_csv fs p)
  /\ (forall fs p, fs p = None -> read_csv fs p = Err ReadError)
  /\ (forall fs p df, fs p = Some df -> read_csv fs p = Ok df)
  /\ (forall fs, load_data fs None None = Err ValueError).
Proof.
  repeat split.
  - intros fs inp p Hp; unfold load_data; destruct p; [congruence|reflexivity].
  - intros fs p E; unfold read_csv; rewrite E; reflexivity.
  - intros fs p df E; unfold read_csv; rewrite E; reflexivity.
Qed.

Lemma load_data_spec_witness :
  load_data ex_fs_no_title None (Some "raw.csv"%string) = read_csv ex_fs_no_title "raw.csv"
  /\ read_csv ex_fs_no_title "missing.csv" = Err ReadError
  /\ read_csv ex_fs_no_title "raw.csv" = Ok (mkFrame ["price"; "location"]%string []).
Proof.
  split; [|split].
  - apply (proj1 load_data_spec); discriminate.
  - apply (proj1 (proj2 load_data_spec)); reflexivity.
  - apply (proj1 (proj2 (proj2 load_data_spec))); reflexivity.
Defined.

(** C6 counterexample: a readable [raw.csv] whose header lacks [title] is
    loaded as a dataset instead of failing. *)
Lemma load_data_accepts_missing_title :
  load_data ex_fs_no_title None (Some "raw.csv"%string)
    = Ok (mkFrame ["price"; "location"]%string [])
  /\ has_col "title" (mkFrame ["price"; "location"]%string []) = false.
Proof. split; reflexivity. Qed.

(** C7 (code bug).  A dataset whose only complete record has no [bhk]
    value makes [mode()[0]] raise [KeyError]; whenever the stage does
    return, every record has title, price and location, and when the [bhk]
    column exists every record has a [bhk] value. *)
Theorem handle_missing_values_C7 :
  handle_missing_values ex_bhk_missing = Err KeyError
  /\ (forall df df', handle_missing_values df = Ok df' ->
        Forall (fun r => critical_present r = true) (rows df')
        /\ (has_col "bhk" df = true -> Forall (fun r => is_some (bhk r) = true) (rows df'))).
Proof.
  split; [vm_compute; reflexivity|].
  intros df df'; unfold handle_missing_values.
  destruct (_ && _ && _); [|discriminate].
  destruct (fill_bhk _) as [df1|e] eqn:E1; simpl; [|discriminate]; intros E2.
  assert (Hd : Forall (fun r => critical_present r = true)
                 (rows (mkFrame (columns df) (filter critical_present (rows df))))).
  { simpl; apply Forall_forall; intros r Hr; apply filter_In in Hr; tauto. }
  split.
  - eapply fill_area_forall; [intros r v H; exact H| |exact E2].
    eapply fill_bhk_forall; [intros r v H; exact H|exact Hd|exact E1].
  - intros Hb; eapply fill_area_forall; [intros r v H; exact H| |exact E2].
    revert E1; unfold fill_bhk.
    change (has_col "bhk" (mkFrame (columns df) (filter critical_present (rows df))))
      with (has_col "bhk" df); rewrite Hb.
    destruct (mode_first _) as [m|e]; simpl; [|discriminate]; intros E; inversion E; subst.
    simpl; apply Forall_map, Forall_forall; intros r _; simpl.
    destruct (bhk r); reflexivity.
Qed.

Lemma handle_missing_values_C7_witness :
  exists df', handle_missing_values ex_case_dup = Ok df'
    /\ Forall (fun r => critical_present r = true) (rows df').
Proof.
  eexists; split; [vm_compute; reflexivity|].
  apply (proj1 (proj2 handle_missing_values_C7 ex_case_dup _ ltac:(vm_compute; reflexivity))).
Defined.

(** C8 (corrected).  [clean_text_fields] is idempotent on every dataset
    whose locations are ASCII text; see [sivas_not_idempotent] for a
    non-ASCII location. *)
Theorem clean_text_fields_idem_ascii (df : frame) :
  Forall (fun r => match location r with Some s => ascii_text s | None => True end)
    (rows df) ->
  clean_text_fields (clean_text_fields df) = clean_text_fields df.
Proof.
  destruct df as [cols rs]; intros Ha; unfold clean_text_fields, has_col;
    cbn [columns rows] in *.
  f_equal.
  destruct (existsb (String.eqb "title") cols), (existsb (String.eqb "location") cols);
    rewrite ?map_map; try reflexivity; apply map_ext_in; intros r Hr;
    (rewrite Forall_forall in Ha; specialize (Ha r Hr));
    destruct r as [i t l p b a f pp]; unfold set_title, set_location; cbn -[clean_title_value clean_location_value];
    f_equal; destruct t; destruct l; simpl;
    rewrite ?clean_title_value_idem, ?clean_location_value_idem by exact Ha; reflexivity.
Qed.

Lemma clean_text_fields_idem_ascii_witness :
  clean_text_fields (clean_text_fields ex_case_dup) = clean_text_fields ex_case_dup.
Proof.
  apply clean_text_fields_idem_ascii; repeat constructor; unfold is_ascii; lia.
Defined.

(** C8 counterexample: "SİVAS" normalises to "Si̇vas" (U+0130 lowercases
    to i followed by the uncased U+0307), and a second pass capitalises the
    letter after U+0307, giving "Si̇Vas". *)
Lemma sivas_not_idempotent :
  map location (rows (clean_text_fields ex_sivas)) = [Some [83; 105; 775; 118; 97; 115]]
  /\ map location (rows (clean_text_fields (clean_text_fields ex_sivas)))
       = [Some [83; 105; 775; 86; 97; 115]]
  /\ clean_text_fields (clean_text_fields ex_sivas) <> clean_text_fields ex_sivas.
Proof.
  split; [vm_compute; reflexivity|split; [vm_compute; reflexivity|]].
  vm_compute; discriminate.
Qed.

Section BackfillClaim.
Variable draw : nat -> nat.
Hypothesis draw_range : forall i, (draw i < 3)%nat.

(** C9 (confirmed).  Without a [furnishing] column the Field Backfiller
    adds it with a value from {Unfurnished, Semi-Furnished, Fully
    Furnished} on every record; with the column present it returns the
    dataset unchanged. *)
Theorem add_furnishing_status_spec (df : frame) :
  (has_col "furnishing" df = false ->
     has_col "furnishing" (add_furnishing_status draw df) = true
     /\ Forall (fun r => exists f, furnishing r = Some f /\ In f furnishing_options)
          (rows (add_furnishing_status draw df)))
  /\ (has_col "furnishing" df = true -> add_furnishing_status draw df = df).
Proof.
  unfold add_furnishing_status; split; intros H; rewrite H; [|reflexivity].
  split.
  - rewrite has_col_add_col, String.eqb_refl, orb_true_r; reflexivity.
  - apply assign_furnishing_values, draw_range.
Qed.
End BackfillClaim.

Lemma add_furnishing_status_spec_witness :
  has_col "furnishing" (add_furnishing_status (fun i => Nat.modulo i 3) ex_case_dup) = true
  /\ Forall (fun r => exists f, furnishing r = Some f /\ In f furnishing_options)
       (rows (add_furnishing_status (fun i => Nat.modulo i 3) ex_case_dup)).
Proof.
  apply (proj1 (add_furnishing_status_spec (fun i => Nat.modulo i 3)
                  (fun i => Nat.mod_upper_bound i 3 ltac:(discriminate)) ex_case_dup)).
  reflexivity.
Defined.

(** C10 (confirmed).  Every stage keeps the survivors of its input in their
    relative order and inserts no record: the index labels of its output are
    a subsequence of those of its input. *)
Theorem stages_preserve_order :
  (forall df df', remove_duplicates df = Ok df' -> embed same_idx (rows df) (rows df'))
  /\ (forall df df', handle_missing_values df = Ok df' -> embed same_idx (rows df) (rows df'))
  /\ (forall df df', clean_price df = Ok df' -> embed same_idx (rows df) (rows df'))
  /\ (forall df, embed same_idx (rows df) (rows (clean_text_fields df)))
  /\ (forall df, embed same_idx (rows df) (rows (calculate_derived_metrics df)))
  /\ (forall draw df, embed same_idx (rows df) (rows (add_furnishing_status draw df)))
  /\ (forall df df' iss, validate_data df = Ok (df', iss) -> rows df' = rows df).
Proof.
  repeat split.
  - intros df df' H; eapply embed_mono; [exact same_kept_idx|].
    apply (proj1 (remove_duplicates_embed df df' H)).
  - intros df df' H; eapply embed_mono; [exact same_kept_idx|].
    apply (proj1 (handle_missing_values_embed df df' H)).
  - intros df df' H; eapply embed_mono; [exact same_kept_idx|].
    apply (proj1 (clean_price_embed df df' H)).
  - intros df; eapply embed_mono; [exact same_kept_idx|].
    apply (proj1 (clean_text_fields_embed df)).
  - intros df; destruct (calculate_derived_metrics_embed df) as [[M _]|E].
    + eapply embed_mono; [exact same_kept_idx|exact M].
    + rewrite E; apply embed_refl; intros r; reflexivity.
  - intros draw df; unfold add_furnishing_status; destruct (has_col "furnishing" df).
    + apply embed_refl; intros r; reflexivity.
    + apply assign_furnishing_embed.
  - intros df df' iss; unfold validate_data; destruct (negb _); [discriminate|].
    intros H; inversion H; reflexivity.
Qed.

Lemma stages_preserve_order_witness :
  exists df', remove_duplicates ex_case_dup = Ok df'
    /\ embed same_idx (rows ex_case_dup) (rows df').
Proof.
  eexists; split; [vm_compute; reflexivity|].
  apply (proj1 stages_preserve_order); vm_compute; reflexivity.
Defined.

(** * Further properties of the stages *)

(** X1.  [remove_duplicates] is idempotent: running it on its own output
    returns that output unchanged. *)
Theorem remove_duplicates_idempotent (df df' : frame) :
  remove_duplicates df = Ok df' -> remove_duplicates df' = Ok df'.
Proof.
  unfold remove_duplicates; destruct (has_col "title" df && has_col "location" df) eqn:H;
    [|discriminate].
  intros E; inversion E; subst; clear E.
  rewrite !has_col_mk, H; f_equal; f_equal.
  apply keep_first_id; [apply (keep_first_spec [] (rows df))|intros r _ []].
Qed.

Lemma remove_duplicates_idempotent_witness :
  exists df', remove_duplicates ex_case_dup = Ok df' /\ remove_duplicates df' = Ok df'.
Proof.
  eexists; split; [vm_compute; reflexivity|].
  apply (remove_duplicates_idempotent ex_case_dup); vm_compute; reflexivity.
Defined.

(** X2.  [remove_duplicates] loses no (title, location) pair: for every
    input record there is an output record with the same pair, and it is the
    first input record having that pair. *)
Theorem remove_duplicates_keeps_first (df df' : frame) (r : row) :
  remove_duplicates df = Ok df' -> In r (rows df) ->
  exists r', In r' (rows df') /\ key r' = key r
    /\ exists pre post, rows df = pre ++ r' :: post
         /\ forall x, In x pre -> key x <> key r.
Proof.
  unfold remove_duplicates; destruct (_ && _); [|discriminate].
  intros E Hr; inversion E; subst; simpl.
  apply keep_first_first; [exact Hr|intros []].
Qed.

Lemma remove_duplicates_keeps_first_witness :
  exists df', remove_duplicates ex_case_dup = Ok df'
    /\ exists r', In r' (rows df') /\ key r' = key (listing 1 [65] [120] 35000)
       /\ exists pre post, rows ex_case_dup = pre ++ r' :: post
            /\ forall x, In x pre -> key x <> key (listing 1 [65] [120] 35000).
Proof.
  eexists; split; [vm_compute; reflexivity|].
  apply (remove_duplicates_keeps_first ex_case_dup); [vm_compute; reflexivity|].
  simpl; right; left; reflexivity.
Defined.

(** X3.  If the title, price or location column is missing, [process_all]
    raises [KeyError]. *)
Theorem process_all_missing_column (draw : nat -> nat) (df : frame) :
  (has_col "title" df && has_col "price" df && has_col "location" df) = false ->
  process_all draw df = Err KeyError.
Proof.
  intros H; unfold process_all, remove_duplicates.
  destruct (has_col "title" df && has_col "location" df) eqn:E; [|reflexivity].
  cbn [bind]; unfold handle_missing_values; rewrite !has_col_mk, H; reflexivity.
Qed.

Lemma process_all_missing_column_witness :
  (has_col "title" (mkFrame ["title"; "location"]%string [])
   && has_col "price" (mkFrame ["title"; "location"]%string [])
   && has_col "location" (mkFrame ["title"; "location"]%string [])) = false
  /\ process_all (fun _ => O) (mkFrame ["title"; "location"]%string []) = Err KeyError.
Proof.
  split; [reflexivity|apply process_all_missing_column; reflexivity].
Defined.



(** X5.  [mode()[0]] raises [KeyError] exactly on an empty series;
    otherwise it returns an observed value of maximal frequency, the least
    one among the values of that frequency. *)
Theorem mode_first_spec (l : list Z) :
  (l = [] -> mode_first l = Err KeyError)
  /\ (l <> [] -> exists m, mode_first l = Ok m)
  /\ (forall m, mode_first l = Ok m ->
        In m l
        /\ (forall v, In v l -> (count_z v l <= count_z m l)%nat)
        /\ (forall v, In v l -> count_z v l = count_z m l -> m <= v)).
Proof.
  split; [intros ->; reflexivity|split; [apply mode_first_nonempty|]].
  intros m H; unfold mode_first in H.
  destruct (filter _ l) as [|v vs] eqn:EF; [discriminate|]; inversion H; subst m; clear H.
  assert (Hsub : forall w, In w (v :: vs) <->
             In w l /\ count_z w l = fold_right (fun v acc => Nat.max (count_z v l) acc) O l).
  { intros w; rewrite <- EF, filter_In, Nat.eqb_eq; reflexivity. }
  destruct (fold_left_min_spec vs v) as [Hin Hle].
  destruct (proj1 (Hsub _) Hin) as [Hm Cm].
  split; [exact Hm|split].
  - intros w Hw; rewrite Cm; apply (proj1 (max_count_spec l l)), Hw.
  - intros w Hw Cw; apply Hle, Hsub; split; [exact Hw|congruence].
Qed.

Lemma mode_first_spec_witness :
  mode_first [] = Err KeyError
  /\ (exists m, mode_first [3; 2; 3; 2; 1] = Ok m)
  /\ In 2 [3; 2; 3; 2; 1].
Proof.
  split; [apply (proj1 (mode_first_spec [])); reflexivity|].
  split; [apply (proj1 (proj2 (mode_first_spec [3; 2; 3; 2; 1]))); discriminate|].
  apply (proj2 (proj2 (mode_first_spec [3; 2; 3; 2; 1])) 2); vm_compute; reflexivity.
Defined.





(** X8.  [handle_missing_values] is idempotent: on its own output it
    drops nothing and fills nothing. *)
Theorem handle_missing_values_idempotent (df df' : frame) :
  handle_missing_values df = Ok df' -> handle_missing_values df' = Ok df'.
Proof.
  intros H.
  destruct (handle_missing_values_resolved df df' H) as [Hc [C R]].
  destruct (handle_missing_values_output df df' H) as [Ob Oa].
  pose proof (Forall2_resolved_critical _ _ R) as Hcp.
  assert (HC : forall c, has_col c df' = has_col c df) by (intros c; apply has_col_cols, C).
  unfold handle_missing_values at 1; rewrite !HC, Hc.
  rewrite (filter_all_true critical_present (rows df'))
    by (rewrite Forall_forall in Hcp; exact Hcp).
  replace (mkFrame (columns df') (rows df')) with df' by (destruct df'; reflexivity).
  rewrite fill_bhk_fixed by (rewrite HC; exact Ob); cbn [bind].
  apply fill_area_fixed; rewrite HC; exact Oa.
Qed.

Lemma handle_missing_values_idempotent_witness :
  exists df', handle_missing_values ex_case_dup = Ok df'
    /\ handle_missing_values df' = Ok df'.
Proof.
  eexists; split; [vm_compute; reflexivity|].
  apply (handle_missing_values_idempotent ex_case_dup); vm_compute; reflexivity.
Defined.

(** X9.  [validate_data] raises [KeyError] without a price column;
    otherwise it returns the dataset unchanged with each of its four
    warnings exactly once when its condition holds and not at all
    otherwise. *)
Theorem validate_data_spec (df : frame) :
  (has_col "price" df = false -> validate_data df = Err KeyError)
  /\ (has_col "price" df = true ->
      exists iss, validate_data df = Ok (df, iss) /\ NoDup iss
      /\ (In "Negative prices found"%string iss
          <-> exists p, In (Some p) (map price (rows df)) /\ (p < 0)%Q)
      /\ (In "Negative area values found"%string iss
          <-> has_col "area_sqft" df = true
              /\ exists a, In (Some a) (map area_sqft (rows df)) /\ (a < 0)%Q)
      /\ (In "Suspiciously low prices found"%string iss
          <-> exists p, In (Some p) (map price (rows df)) /\ (p < 1000)%Q)
      /\ (In "Suspiciously high prices found"%string iss
          <-> exists p, In (Some p) (map price (rows df)) /\ (10000000 < p)%Q)).
Proof.
  split; intros Hp; unfold validate_data; rewrite Hp; [reflexivity|]; cbv zeta; cbn [negb].
  set (b1 := any_value (fun p => Qlt_bool p 0) (map price (rows df))).
  set (b2 := has_col "area_sqft" df && any_value (fun a => Qlt_bool a 0) (map area_sqft (rows df))).
  set (b3 := any_value (fun p => Qlt_bool p 1000) (map price (rows df))).
  set (b4 := any_value (fun p => Qlt_bool 10000000 p) (map price (rows df))).
  destruct (warnings_in b1 b2 b3 b4) as [ND [I1 [I2 [I3 I4]]]].
  eexists; split; [reflexivity|split; [exact ND|]].
  rewrite I1, I2, I3, I4; unfold b1, b2, b3, b4.
  rewrite andb_true_iff, !any_value_iff; setoid_rewrite Qlt_bool_iff; repeat split; tauto.
Qed.

Lemma validate_data_spec_witness :
  validate_data ex_case_dup = Ok (ex_case_dup, [])
  /\ validate_data (mkFrame ["title"; "location"]%string []) = Err KeyError.
Proof.
  split; [reflexivity|apply (proj1 (validate_data_spec _)); reflexivity].
Defined.



(** X11.  With both columns present, a finite [price_per_sqft] arises
    only from a present price and a present non-zero area. *)
Theorem calculate_derived_metrics_rounding (df : frame) (r : row) (x : Q) :
  has_col "price" df = true -> has_col "area_sqft" df = true ->
  In r (rows (calculate_derived_metrics df)) -> price_per_sqft r = Some (Fin x) ->
  exists p a, price r = Some p /\ area_sqft r = Some a /\ ~ (a == 0)%Q.
Proof.
  intros Hp Ha; unfold calculate_derived_metrics; rewrite Hp, Ha; cbn [andb rows].
  intros Hr Hx; apply in_map_iff in Hr as [r0 [<- _]]; cbn in Hx |- *.
  unfold derived_price_per_sqft, f_div in Hx.
  destruct (price r0) as [p|], (area_sqft r0) as [a|]; try discriminate.
  destruct (Qeq_bool a 0) eqn:Ez.
  - destruct (Qlt_bool 0 p); [discriminate|]; destruct (Qlt_bool p 0); discriminate.
  - exists p, a; split; [reflexivity|split; [reflexivity|]].
    intros E; apply Qeq_bool_iff in E; congruence.
Qed.

Lemma calculate_derived_metrics_rounding_witness :
  exists p a, Some 35000%Q = Some p /\ Some 3%Q = Some a /\ ~ (a == 0)%Q.
Proof.
  apply (calculate_derived_metrics_rounding
           (mkFrame ["title"; "price"; "location"; "area_sqft"]%string
              [mkRow 0 (Some [65]) (Some [88]) (Some 35000%Q) None (Some 3%Q) None None])
           (mkRow 0 (Some [65]) (Some [88]) (Some 35000%Q) None (Some 3%Q) None
              (Some (Fin (6413819661212713 # 549755813888))))
           (6413819661212713 # 549755813888)); [reflexivity|reflexivity| |reflexivity].
  vm_compute; left; reflexivity.
Defined.

(** X12.  Every record of a successful [process_all] has a title, a
    price and a location. *)
Theorem process_all_complete_records (draw : nat -> nat) (df df' : frame)
        (iss : list string) :
  process_all draw df = Ok (df', iss) ->
  Forall (fun r => critical_present r = true) (rows df').
Proof.
  unfold process_all.
  destruct (remove_duplicates df) as [df1|e]; cbn [bind]; [|discriminate].
  destruct (handle_missing_values df1) as [df2|e] eqn:E2; cbn [bind]; [|discriminate].
  destruct (clean_price df2) as [df3|e] eqn:E3; cbn [bind]; [|discriminate].
  destruct (handle_missing_values_resolved df1 df2 E2) as [_ [_ R]].
  pose proof (clean_price_forall _ _ _ E3 (Forall2_resolved_critical _ _ R)) as H3.
  pose proof (clean_text_fields_critical df3 H3) as H4.
  pose proof (calculate_derived_metrics_forall (fun r => critical_present r = true) _
                (fun r v H => H) H4) as H5.
  pose proof (add_furnishing_status_forall (fun r => critical_present r = true) draw _
                (fun r v H => H) H5) as H6.
  unfold validate_data; destruct (negb _); [discriminate|].
  intros E; inversion E; subst; exact H6.
Qed.

Lemma process_all_complete_records_witness :
  exists df' iss, process_all (fun _ => O) ex_case_dup = Ok (df', iss)
    /\ Forall (fun r => critical_present r = true) (rows df').
Proof.
  do 2 eexists; split; [vm_compute; reflexivity|].
  eapply (process_all_complete_records (fun _ => O) ex_case_dup); vm_compute; reflexivity.
Defined.

(** X13.  [process_all] removes no column: its output has every input
    column, a [furnishing] column, and a [price_per_sqft] column when the
    input has [area_sqft]. *)
Theorem process_all_columns (draw : nat -> nat) (df df' : frame) (iss : list string) :
  process_all draw df = Ok (df', iss) ->
  (forall c, has_col c df = true -> has_col c df' = true)
  /\ has_col "furnishing" df' = true
  /\ (has_col "area_sqft" df = true -> has_col "price_per_sqft" df' = true).
Proof.
  unfold process_all.
  destruct (remove_duplicates df) as [df1|e] eqn:E1; cbn [bind]; [|discriminate].
  destruct (handle_missing_values df1) as [df2|e] eqn:E2; cbn [bind]; [|discriminate].
  destruct (clean_price df2) as [df3|e] eqn:E3; cbn [bind]; [|discriminate].
  destruct (handle_missing_values_resolved df1 df2 E2) as [Hc [C2 _]].
  apply remove_duplicates_embed in E1 as [_ C1]; apply clean_price_embed in E3 as [_ C3].
  destruct (clean_text_fields_embed df3) as [_ C4].
  assert (HC : forall c, has_col c (clean_text_fields df3) = has_col c df)
    by (intros c; apply has_col_cols; congruence).
  assert (Hp : has_col "price" df = true).
  { rewrite <- (has_col_cols "price" df1 df C1).
    apply andb_true_iff in Hc as [Hc _]; apply andb_true_iff in Hc as [_ Hc]; exact Hc. }
  unfold validate_data; destruct (negb _); [discriminate|].
  intros E; inversion E; subst; clear E.
  split; [|split].
  - intros c Hc'; rewrite has_col_add_furnishing_status, has_col_calculate_derived_metrics,
      !HC, Hp, Hc'; destruct (has_col "area_sqft" df); reflexivity.
  - rewrite has_col_add_furnishing_status; apply orb_true_r.
  - intros Ha; rewrite has_col_add_furnishing_status, has_col_calculate_derived_metrics,
      !HC, Hp, Ha; cbn [andb]; rewrite String.eqb_refl, !orb_true_r; reflexivity.
Qed.

Lemma process_all_columns_witness :
  exists df' iss, process_all (fun _ => O) ex_zero_area = Ok (df', iss)
    /\ has_col "price_per_sqft" df' = true.
Proof.
  do 2 eexists; split; [vm_compute; reflexivity|].
  eapply (process_all_columns (fun _ => O) ex_zero_area); [vm_compute; reflexivity|reflexivity].
Defined.

(** X14.  An empty [filepath] counts as no path (Python truthiness):
    [load_data] then reads the configured input file, and with neither a
    non-empty path nor a non-empty input file (each [None] or empty) it
    raises [ValueError]. *)
Theorem load_data_falsy_paths :
  (forall fs input_file,
     load_data fs input_file (Some EmptyString) = load_data fs input_file None)
  /\ (forall fs p, p <> EmptyString -> load_data fs (Some p) None = read_csv fs p)
  /\ (forall fs input_file filepath, truthy filepath = false -> truthy input_file = false ->
        load_data fs input_file filepath = Err ValueError).
Proof.
  split; [reflexivity|split].
  - intros fs p Hp; unfold load_data; destruct p; [congruence|reflexivity].
  - intros fs inp fp Hf Hi; unfold load_data; rewrite Hf, Hi; reflexivity.
Qed.

Lemma load_data_falsy_paths_witness :
  load_data ex_fs_no_title (Some "raw.csv"%string) None = read_csv ex_fs_no_title "raw.csv"
  /\ load_data ex_fs_no_title None None = Err ValueError
  /\ load_data ex_fs_no_title (Some EmptyString) (Some EmptyString) = Err ValueError.
Proof.
  split; [apply (proj1 (proj2 load_data_falsy_paths)); discriminate|split].
  - apply (proj2 (proj2 load_data_falsy_paths)); reflexivity.
  - apply (proj2 (proj2 load_data_falsy_paths)); reflexivity.
Defined.

(** X15.  [handle_missing_values] fails exactly when a title, price or
    location column is missing, or when there is a [bhk] column and no
    record with title, price and location has a bhk value (the mode of an
    empty series); the error is then [KeyError]. *)
Theorem handle_missing_values_error (df : frame) (e : py_exc) :
  handle_missing_values df = Err e <->
  e = KeyError
  /\ ((has_col "title" df && has_col "price" df && has_col "location" df) = false
      \/ (has_col "bhk" df = true
          /\ somes (map bhk (filter critical_present (rows df))) = [])).
Proof.
  unfold handle_missing_values.
  destruct (has_col "title" df && has_col "price" df && has_col "location" df) eqn:Hc.
  - unfold fill_bhk; rewrite has_col_mk; cbn [rows].
    destruct (has_col "bhk" df) eqn:Hb.
    + destruct (somes (map bhk (filter critical_present (rows df)))) as [|z l] eqn:Es.
      * cbn [mode_first bind]; split; [intros E; inversion E; tauto|].
        intros [-> _]; reflexivity.
      * destruct (mode_first_nonempty (z :: l) ltac:(discriminate)) as [m Em].
        rewrite Em; cbn [bind].
        match goal with |- context [fill_area ?d0] =>
          destruct (fill_area_never_fails d0) as [d Ed]; rewrite Ed end; split; [discriminate|intros [_ [H|[_ H]]]; discriminate].
    + cbn [bind]; match goal with |- context [fill_area ?d0] =>
        destruct (fill_area_never_fails d0) as [d Ed]; rewrite Ed end; split; [discriminate|intros [_ [H|[H _]]]; discriminate].
  - split; [intros E; inversion E; tauto|intros [-> _]; reflexivity].
Qed.

Lemma handle_missing_values_error_witness :
  handle_missing_values ex_bhk_missing = Err KeyError
  /\ handle_missing_values (mkFrame ["title"; "location"]%string []) = Err KeyError.
Proof.
  split; apply (proj2 (handle_missing_values_error _ _)); split; try reflexivity.
  - right; split; reflexivity.
  - left; reflexivity.
Defined.

(** X16.  When the input already has a [furnishing] column, the result of
    [process_all] does not depend on the random draws. *)
Theorem process_all_draw_irrelevant (draw1 draw2 : nat -> nat) (df : frame) :
  has_col "furnishing" df = true -> process_all draw1 df = process_all draw2 df.
Proof.
  intros Hf; unfold process_all.
  destruct (remove_duplicates df) as [df1|e] eqn:E1; cbn [bind]; [|reflexivity].
  destruct (handle_missing_values df1) as [df2|e] eqn:E2; cbn [bind]; [|reflexivity].
  destruct (clean_price df2) as [df3|e] eqn:E3; cbn [bind]; [|reflexivity].
  destruct (handle_missing_values_resolved df1 df2 E2) as [_ [C2 _]].
  apply remove_duplicates_embed in E1 as [_ C1]; apply clean_price_embed in E3 as [_ C3].
  destruct (clean_text_fields_embed df3) as [_ C4].
  assert (Hf5 : has_col "furnishing" (calculate_derived_metrics (clean_text_fields df3)) = true).
  { rewrite has_col_calculate_derived_metrics,
      (has_col_cols "furnishing" (clean_text_fields df3) df) by congruence.
    rewrite Hf; destruct (_ && _); reflexivity. }
  unfold add_furnishing_status; rewrite Hf5; reflexivity.
Qed.

Lemma process_all_draw_irrelevant_witness :
  process_all (fun _ => O) ex_partial_furnishing = process_all (fun _ => 2%nat) ex_partial_furnishing.
Proof. apply process_all_draw_irrelevant; reflexivity. Defined.

(** X17.  [clean_text_fields] changes no column and no field other than
    title and location, and never fills in or erases a title or a
    location: a missing value stays missing and a present one stays
    present. *)
Theorem clean_text_fields_keeps_fields (df : frame) :
  columns (clean_text_fields df) = columns df
  /\ Forall2 (fun r r' =>
       idx r' = idx r /\ price r' = price r /\ bhk r' = bhk r
       /\ area_sqft r' = area_sqft r /\ furnishing r' = furnishing r
       /\ price_per_sqft r' = price_per_sqft r
       /\ (title r' = None <-> title r = None)
       /\ (location r' = None <-> location r = None))
     (rows df) (rows (clean_text_fields df)).
Proof.
  unfold clean_text_fields; cbn [rows columns]; split; [reflexivity|].
  destruct (has_col "title" df), (has_col "location" df); rewrite ?map_map;
    first [apply Forall2_map_self | apply Forall2_self]; intros r _;
    destruct r as [i [t|] [l|] p b a f pp]; simpl;
    repeat split; intros; congruence.
Qed.

(** X18.  If the price column exists but no record has a price, the
    quartiles are NaN and [clean_price] removes every record. *)
Theorem clean_price_no_prices (df : frame) :
  has_col "price" df = true -> Forall (fun r => price r = None) (rows df) ->
  clean_price df = Ok (mkFrame (columns df) []).
Proof.
  intros Hp Hn; unfold clean_price; rewrite Hp; cbn [negb].
  assert (Hs : somes (map price (rows df)) = [])
    by (apply somes_all_none, Forall_map, Hn).
  unfold price_bounds; rewrite Hs; reflexivity.
Qed.

Lemma clean_price_no_prices_witness :
  clean_price (mkFrame cols_req [mkRow 0 (Some [65]) (Some [88]) None None None None None])
  = Ok (mkFrame cols_req []).
Proof. apply (clean_price_no_prices (mkFrame cols_req _)); [reflexivity|repeat constructor]. Defined.


